(** * Lead pipeline of the chatbot CRM backend: geolocation, product
      matching, lead extraction and qualification

    A shallow embedding of [lead_manager.py] and of the helper functions of
    [main.py] that the lead pipeline uses.

    Conventions of the embedding.
    - A Python [float] is a finite number computed exactly: a rational [Q]
      where the code only adds and compares (catalog coordinates, jitter), a
      real [R] where it calls [math.sin], [math.cos], [math.sqrt] and
      [math.atan2].  Rounding error, NaN and the infinities are outside the
      model ([float('inf')], which the code uses as a sentinel, is modelled
      apart).
    - A Python [dict] with string keys is a [gmap string _]; the ordered
      table walked by [items()] is an association list.
    - An exception is a value: fallible code returns a [result], and
      [try ... except] is a [match] on it.
    - [random] is an oracle: a tape of raw draws threaded through the calls. *)

From Stdlib Require Import Reals Psatz QArith Qreals Qabs ZArith List.
From Stdlib Require Import Sorted Permutation Ascii String.
From stdpp Require Import gmap strings pretty.
Import ListNotations.

(** ** Python runtime *)

Module Py.

(** The exception classes the modelled code can meet; [ProviderError] stands
    for whatever the [ipinfo] client raises (network failure, non-200 answer,
    body that is not JSON). *)
Inductive exn : Set :=
| ValueError | TypeError | KeyError | IndexError | AttributeError
| ProviderError.

Inductive result (A : Type) : Type :=
| Ok (a : A)
| Raise (e : exn).
Arguments Ok {A} a.
Arguments Raise {A} e.

Definition bind {A B} (c : result A) (k : A -> result B) : result B :=
  match c with
  | Ok a => k a
  | Raise e => Raise e
  end.

(** A JSON-like Python value, as found in the provider's answer. *)
#[local] Unset Elimination Schemes.
Inductive pyval : Type :=
| PStr (s : string)
| PNone
| PNum (n : Z)
| PList (items : list pyval)
| PDict (items : list (string * pyval)).
#[local] Set Elimination Schemes.

(** [needle in hay] for two [str]. *)
Fixpoint str_contains (needle hay : string) : bool :=
  String.prefix needle hay ||
  match hay with
  | EmptyString => false
  | String _ hay' => str_contains needle hay'
  end.

Definition is_str (s : string) (v : pyval) : bool :=
  match v with
  | PStr s' => String.eqb s s'
  | _ => false
  end.

(** [s in v] for a [str] [s]: substring test on a [str], membership on a
    [list], key test on a [dict], [TypeError] on [None] and on numbers. *)
Definition py_in (s : string) (v : pyval) : result bool :=
  match v with
  | PStr hay => Ok (str_contains s hay)
  | PList items => Ok (existsb (is_str s) items)
  | PDict items => Ok (existsb (fun kv => String.eqb s (fst kv)) items)
  | PNone | PNum _ => Raise TypeError
  end.

(** [s.split(sep)] for a one-character separator: never empty. *)
Fixpoint split (sep : ascii) (s : string) : list string :=
  match s with
  | EmptyString => [EmptyString]
  | String c s' =>
      if Ascii.eqb c sep then EmptyString :: split sep s'
      else match split sep s' with
           | [] => [String c EmptyString]
           | w :: ws => String c w :: ws
           end
  end.

Definition is_upper (c : ascii) : bool :=
  let n := nat_of_ascii c in (65 <=? n)%nat && (n <=? 90)%nat.
Definition is_lower (c : ascii) : bool :=
  let n := nat_of_ascii c in (97 <=? n)%nat && (n <=? 122)%nat.
Definition is_digit (c : ascii) : bool :=
  let n := nat_of_ascii c in (48 <=? n)%nat && (n <=? 57)%nat.
(** [\s] and [str.isspace] on ASCII: space, tab, newline, vertical tab, form
    feed, carriage return and the four separators 28..31. *)
Definition is_space (c : ascii) : bool :=
  let n := nat_of_ascii c in
  (n =? 32)%nat || ((9 <=? n)%nat && (n <=? 13)%nat)
  || ((28 <=? n)%nat && (n <=? 31)%nat).

(** [str.lower] on ASCII text (bytes above 127 are left as they are). *)
Definition lower_char (c : ascii) : ascii :=
  if is_upper c then ascii_of_nat (nat_of_ascii c + 32) else c.
Fixpoint lower (s : string) : string :=
  match s with
  | EmptyString => EmptyString
  | String c s' => String (lower_char c) (lower s')
  end.

(** *** The [random] module as an oracle

    The generator is a tape of raw draws and a cursor.  Each primitive reads
    one cell and maps it onto its range, so every value of the range is a
    possible outcome and nothing else is. *)
Record rng : Type := { tape : nat -> N; cursor : nat }.

Definition next_raw (g : rng) : N * rng :=
  (tape g (cursor g), {| tape := tape g; cursor := S (cursor g) |}).

(** [random._randbelow(n)] for [n > 0]: an integer in [0, n). *)
Definition randbelow (n : N) (g : rng) : N * rng :=
  let (raw, g') := next_raw g in ((raw mod n)%N, g').

(** [random.random()]: 53 random bits scaled into [0, 1). *)
Definition random (g : rng) : Q * rng :=
  let (raw, g') := next_raw g in
  (Z.of_N (raw mod 2 ^ 53)%N # (2 ^ 53), g').

(** [random.uniform(a, b)] is [a + (b - a) * random()]. *)
Definition uniform (a b : Q) (g : rng) : Q * rng :=
  let (u, g') := random g in ((a + (b - a) * u)%Q, g').

(** [random.randint(a, b)] is [a + _randbelow(b - a + 1)]. *)
Definition randint (a b : Z) (g : rng) : Z * rng :=
  let (k, g') := randbelow (Z.to_N (b - a + 1)) g in ((a + Z.of_N k)%Z, g').

(** [random.choice(seq)]: [IndexError] on an empty sequence. *)
Definition choice {A} (seq : list A) (g : rng) : result A * rng :=
  match seq with
  | [] => (Raise IndexError, g)
  | x :: _ =>
      let (i, g') := randbelow (N.of_nat (length seq)) g in
      (Ok (nth (N.to_nat i) seq x), g')
  end.

End Py.
Export Py.

(** [result] is a monad in stdpp's sense: [x ← c; k] runs [c] and stops
    at the first exception. *)
#[global] Instance result_ret : MRet result := fun A a => Ok a.
#[global] Instance result_bind : MBind result := fun A B k c => Py.bind c k.

(** ** [lead_manager.py] *)

Module LeadManager.

Local Open Scope R_scope.

Record area : Type :=
  { area_name : string; area_latitude : Q; area_longitude : Q }.

(** [CHENNAI_LOCATION["areas"]] *)
Definition CHENNAI_areas : list area :=
  [ {| area_name := "Ambattur"; area_latitude := 13.1143; area_longitude := 80.1548 |};
    {| area_name := "Anna Nagar"; area_latitude := 13.0891; area_longitude := 80.2107 |};
    {| area_name := "T Nagar"; area_latitude := 13.0418; area_longitude := 80.2341 |};
    {| area_name := "Velachery"; area_latitude := 12.9815; area_longitude := 80.2180 |};
    {| area_name := "Adyar"; area_latitude := 13.0012; area_longitude := 80.2565 |};
    {| area_name := "Porur"; area_latitude := 13.0359; area_longitude := 80.1567 |};
    {| area_name := "Guindy"; area_latitude := 13.0070; area_longitude := 80.2143 |} ].

Definition CHENNAI_city : string := "Chennai".
Definition CHENNAI_region : string := "Tamil Nadu".
Definition CHENNAI_country : string := "India".

Record product_location : Type :=
  { loc_name : string; loc_type : string;
    loc_latitude : Q; loc_longitude : Q; loc_address : string }.

Definition PRODUCT_LOCATIONS : list product_location :=
  [ {| loc_name := "Chennai Office Solutions"; loc_type := "office_supplies";
       loc_latitude := 13.1133; loc_longitude := 80.1538;
       loc_address := "23 Ambattur Industrial Estate, Chennai" |};
    {| loc_name := "TechHub Chennai"; loc_type := "electronics";
       loc_latitude := 13.0881; loc_longitude := 80.2117;
       loc_address := "45 Anna Nagar East, Chennai" |};
    {| loc_name := "Mega Retail Center"; loc_type := "retail";
       loc_latitude := 13.0408; loc_longitude := 80.2351;
       loc_address := "78 T Nagar Main Road, Chennai" |};
    {| loc_name := "Chennai Business Park"; loc_type := "office_space";
       loc_latitude := 13.0349; loc_longitude := 80.1577;
       loc_address := "120 Porur Highway, Chennai" |};
    {| loc_name := "IT Solutions Center"; loc_type := "software";
       loc_latitude := 13.0060; loc_longitude := 80.2153;
       loc_address := "56 Guindy Industrial Area, Chennai" |} ].

(** *** The [math] functions used by [calculate_distance] *)

(** [math.radians] *)
Definition radians (x : R) : R := x * (PI / 180).

(** [math.sqrt]: [ValueError] (math domain error) below zero. *)
Definition py_sqrt (x : R) : result R :=
  if Rle_dec 0 x then Ok (sqrt x) else Raise ValueError.

(** [math.atan2 y x], the angle of the point [(x, y)] in (-PI, PI]. *)
Definition atan2 (y x : R) : R :=
  if Rlt_dec 0 x then atan (y / x)
  else if Rlt_dec x 0 then
    (if Rle_dec 0 y then atan (y / x) + PI else atan (y / x) - PI)
  else if Rlt_dec 0 y then PI / 2
  else if Rlt_dec y 0 then - (PI / 2)
  else 0.

Definition calculate_distance (lat1 lon1 lat2 lon2 : R) : result R :=
  (* Earth radius in kilometers *)
  let R_km := 6371.0 in
  (* Convert degrees to radians *)
  let lat1_rad := radians lat1 in
  let lon1_rad := radians lon1 in
  let lat2_rad := radians lat2 in
  let lon2_rad := radians lon2 in
  (* Difference in coordinates *)
  let dlon := lon2_rad - lon1_rad in
  let dlat := lat2_rad - lat1_rad in
  (* Haversine formula *)
  let a := sin (dlat / 2) ^ 2
           + cos lat1_rad * cos lat2_rad * sin (dlon / 2) ^ 2 in
  sa ← py_sqrt a;
  sb ← py_sqrt (1 - a);
  let c := 2 * atan2 sa sb in
  let distance := R_km * c in
  Ok distance.

(** *** [get_nearest_area] *)

(** [dist < min_distance], where [None] is the sentinel [float('inf')]. *)
Definition lt_min (dist : R) (min_distance : option R) : bool :=
  match min_distance with
  | None => true
  | Some m => if Rlt_dec dist m then true else false
  end.

(** The [for area in CHENNAI_LOCATION["areas"]] loop, with the two variables
    it updates. *)
Fixpoint nearest_loop (latitude longitude : Q) (areas : list area)
    (min_distance : option R) (nearest_area : string) : result string :=
  match areas with
  | [] => Ok nearest_area
  | area :: rest =>
      dist ← calculate_distance (Q2R latitude) (Q2R longitude)
               (Q2R (area_latitude area)) (Q2R (area_longitude area));
      if lt_min dist min_distance
      then nearest_loop latitude longitude rest (Some dist) (area_name area)
      else nearest_loop latitude longitude rest min_distance nearest_area
  end.

Section Builtins.

(** The builtin [float(s)] on a [str]: [None] is [ValueError].  It yields
    the finite values only: on the literals [nan] and [inf], which [float]
    also accepts, every distance is NaN or [math.sin] raises, and
    [get_nearest_area] ends on its default as it does when [float] raises. *)
Variable py_float : string -> option Q.

(** The text that an f-string prints for a [float]. *)
Variable float_repr : Q -> string.

(** [latitude, longitude = map(float, loc_str.split(","))]: [AttributeError]
    when [loc_str] has no [split], [ValueError] unless there are exactly two
    parts and [float] accepts both. *)
Definition parse_loc (loc_str : pyval) : result (Q * Q) :=
  match loc_str with
  | PStr s =>
      match split "," s with
      | [a; b] =>
          match py_float a, py_float b with
          | Some latitude, Some longitude => Ok (latitude, longitude)
          | _, _ => Raise ValueError
          end
      | _ => Raise ValueError
      end
  | _ => Raise AttributeError
  end.

Definition get_nearest_area_try (loc_str : pyval) : result string :=
  '(latitude, longitude) ← parse_loc loc_str;
  nearest_loop latitude longitude CHENNAI_areas None "Ambattur".

Definition get_nearest_area (loc_str : pyval) : string :=
  match get_nearest_area_try loc_str with
  | Ok nearest_area => nearest_area
  | Raise _ => "Ambattur" (* Default to Ambattur on any error *)
  end.

(** *** [generate_fake_ip_info] *)

Definition generate_fake_ip_info (use_default_location : bool) (g : rng)
  : result (gmap string pyval) * rng :=
  if use_default_location then
    match choice CHENNAI_areas g with
    | (Raise e, g) => (Raise e, g)
    | (Ok area, g) =>
        (* Add slight randomization to coordinates for variety *)
        let (lat_offset, g) := uniform (-0.01) 0.01 g in
        let (long_offset, g) := uniform (-0.01) 0.01 g in
        let (ip1, g) := randint 0 255 g in
        let (ip2, g) := randint 0 255 g in
        let (ip3, g) := randint 0 255 g in
        let (host, g) := randint 100 999 g in
        let (asn, g) := randint 10000 99999 g in
        let (post, g) := randint 10 99 g in
        (Ok (list_to_map
           [ ("ip", PStr ("103." +:+ pretty ip1 +:+ "." +:+ pretty ip2
                          +:+ "." +:+ pretty ip3));
             ("hostname", PStr ("host-" +:+ pretty host +:+ ".airtel.net.in"));
             ("city", PStr CHENNAI_city);
             ("region", PStr CHENNAI_region);
             ("country", PStr CHENNAI_country);
             ("loc", PStr (float_repr (area_latitude area + lat_offset)%Q
                           +:+ "," +:+
                           float_repr (area_longitude area + long_offset)%Q));
             ("org", PStr ("AS" +:+ pretty asn +:+ " Bharti Airtel Ltd."));
             ("postal", PStr ("6000" +:+ pretty post));
             ("timezone", PStr "Asia/Kolkata");
             ("area", PStr (area_name area)) ]), g)
    end
  else
    (* Generate completely random location (not used in this implementation) *)
    let (ip0, g) := randint 1 255 g in
    let (ip1, g) := randint 0 255 g in
    let (ip2, g) := randint 0 255 g in
    let (ip3, g) := randint 0 255 g in
    let (host, g) := randint 100 999 g in
    let (lat, g) := uniform (-90) 90 g in
    let (lon, g) := uniform (-180) 180 g in
    let (asn, g) := randint 10000 99999 g in
    let (post, g) := randint 10000 99999 g in
    (Ok (list_to_map
       [ ("ip", PStr (pretty ip0 +:+ "." +:+ pretty ip1 +:+ "." +:+ pretty ip2
                      +:+ "." +:+ pretty ip3));
         ("hostname", PStr ("host-" +:+ pretty host +:+ ".example.com"));
         ("city", PStr "Random City");
         ("region", PStr "Random Region");
         ("country", PStr "Random Country");
         ("loc", PStr (float_repr lat +:+ "," +:+ float_repr lon));
         ("org", PStr ("AS" +:+ pretty asn +:+ " Example ISP"));
         ("postal", PStr (pretty post));
         ("timezone", PStr "UTC") ]), g).

(** *** [get_ip_info] *)

(** The [ipinfo] client: [getDetails ip] is the dictionary [details.all] of
    the answer, or the exception raised on the way ([getHandler],
    [getDetails], a non-200 answer, a body that does not decode). *)
Variable getDetails : option string -> result (gmap string pyval).

(** [if ip:] *)
Definition truthy (ip : option string) : bool :=
  match ip with
  | None | Some EmptyString => false
  | Some _ => true
  end.

(** The body of the [try]. *)
Definition get_ip_info_try (ip : option string) : result (gmap string pyval) :=
  ip_data ← (if truthy ip then getDetails ip else getDetails None);
  (* "loc" in ip_data and "," in ip_data["loc"] *)
  has_loc ← match ip_data !! "loc" with
            | Some loc => py_in "," loc
            | None => Ok false
            end;
  if has_loc : bool then
    loc ← match ip_data !! "loc" with
          | Some loc => Ok loc
          | None => Raise KeyError
          end;
    Ok (<["area" := PStr (get_nearest_area loc)]> ip_data)
  else
    (* Fallback to a default area in Chennai *)
    Ok (<["area" := PStr "Ambattur"]> ip_data).

(** The [except Exception] handler logs the error (not modelled) and
    returns [generate_fake_ip_info(True)]. *)
Definition get_ip_info (ip : option string) (g : rng)
  : result (gmap string pyval) * rng :=
  match get_ip_info_try ip with
  | Ok ip_data => (Ok ip_data, g)
  | Raise _ => generate_fake_ip_info true g
  end.

End Builtins.

(** *** [find_nearby_products] *)

(** [round(x)] to an integer, ties to even. *)
Definition round_half_even (x : R) : Z :=
  let f := Zfloor x in
  let r := x - IZR f in
  if Rlt_dec r (1 / 2) then f
  else if Rlt_dec (1 / 2) r then (f + 1)%Z
  else if Z.even f then f else (f + 1)%Z.

(** [round(x, ndigits)] on the exact value of [x]. *)
Definition py_round (x : R) (ndigits : nat) : R :=
  IZR (round_half_even (x * 10 ^ ndigits)) / 10 ^ ndigits.

(** [location.copy()] with the key ["distance_km"] added. *)
Record nearby_product : Type :=
  { location : product_location; distance_km : R }.

(** [list.sort(key=...)] is a stable sort: an element moves in front of
    those with a strictly larger key only. *)
Fixpoint insert_by_key {A} (key : A -> R) (x : A) (l : list A) : list A :=
  match l with
  | [] => [x]
  | y :: l' =>
      if Rlt_dec (key y) (key x) then y :: insert_by_key key x l'
      else x :: y :: l'
  end.

Definition list_sort {A} (key : A -> R) (l : list A) : list A :=
  fold_right (insert_by_key key) [] l.

(** The [for location in PRODUCT_LOCATIONS] loop. *)
Fixpoint nearby_loop (lat lon max_distance : R)
    (locations : list product_location) (nearby : list nearby_product)
  : result (list nearby_product) :=
  match locations with
  | [] => Ok nearby
  | location :: rest =>
      distance ← calculate_distance lat lon
                   (Q2R (loc_latitude location)) (Q2R (loc_longitude location));
      if Rle_dec distance max_distance then
        let location_copy :=
          {| location := location; distance_km := py_round distance 2 |} in
        nearby_loop lat lon max_distance rest (nearby ++ [location_copy])
      else nearby_loop lat lon max_distance rest nearby
  end.

Definition find_nearby_products (lat lon max_distance : R)
  : result (list nearby_product) :=
  nearby ← nearby_loop lat lon max_distance PRODUCT_LOCATIONS [];
  (* Sort by distance *)
  Ok (list_sort distance_km nearby).

(** The quantity [a] that [calculate_distance] computes, as a function of
    the four arguments. *)
Definition hav_a (lat1 lon1 lat2 lon2 : R) : R :=
  sin ((radians lat2 - radians lat1) / 2) ^ 2
  + cos (radians lat1) * cos (radians lat2)
    * sin ((radians lon2 - radians lon1) / 2) ^ 2.

(** The value [calculate_distance] returns: the Haversine distance in
    kilometers. *)
Definition haversine (lat1 lon1 lat2 lon2 : R) : R :=
  6371.0 * (2 * atan2 (sqrt (hav_a lat1 lon1 lat2 lon2))
                      (sqrt (1 - hav_a lat1 lon1 lat2 lon2))).

(** The Haversine distance from a point to a named area and to a product
    location of the catalogs. *)
Definition area_distance (latitude longitude : Q) (a : area) : R :=
  haversine (Q2R latitude) (Q2R longitude)
    (Q2R (area_latitude a)) (Q2R (area_longitude a)).
Definition product_distance (lat lon : R) (p : product_location) : R :=
  haversine lat lon (Q2R (loc_latitude p)) (Q2R (loc_longitude p)).

(** Comparisons of reals are decided by the classical reals. *)
#[global] Instance Rle_decision (x y : R) : Decision (x <= y) := Rle_dec x y.
#[global] Instance R_eq_decision : EqDecision R := Req_dec_T.

(** The entry of the answer for a catalog location: the copy with its
    rounded distance. *)
Definition with_distance (lat lon : R) (p : product_location) : nearby_product :=
  {| location := p; distance_km := py_round (product_distance lat lon p) 2 |}.

(** *** The pydantic models *)

Record LeadQualificationCriteria : Type :=
  { min_company_size : option Z;
    target_industries : option (list string);
    budget_threshold : option Q;
    decision_maker_titles : option (list string);
    buying_timeframe : option string;
    required_fields : list string }.

(** The defaults of the class. *)
Definition default_criteria : LeadQualificationCriteria :=
  {| min_company_size := None; target_industries := None;
     budget_threshold := None; decision_maker_titles := None;
     buying_timeframe := None; required_fields := ["email"] |}.

(** A lead as it is submitted.  The model class declares [email] without a
    default; the record keeps it optional so that a lead without it can be
    written down.  Dates are timestamps. *)
Record Lead : Type :=
  { lead_email : option string;
    lead_first_name : option string;
    lead_last_name : option string;
    lead_company : option string;
    lead_company_size : option Z;
    lead_industry : option string;
    lead_job_title : option string;
    lead_phone : option string;
    lead_budget : option Q;
    lead_buying_timeframe : option string;
    lead_website : option string;
    lead_source : option string;
    lead_message : option string;
    lead_location : option (gmap string pyval);
    lead_created_at : Z;
    lead_last_contact_date : option Z }.

(** *** The qualifier *)

(** The weights of the five criteria and the score a lead must reach. *)
Record rubric : Type :=
  { weight_company_size : Q; weight_industry : Q; weight_budget : Q;
    weight_title : Q; weight_timeframe : Q; pass_mark : Q }.

Record verdict : Type :=
  { qualified : bool; score : Q; details : list string }.

Definition filled (v : option string) : bool :=
  match v with
  | None | Some EmptyString => false
  | Some _ => true
  end.

(** Whether the lead carries the field of that name. *)
Definition field_present (lead : Lead) (field : string) : bool :=
  if String.eqb field "email" then filled (lead_email lead)
  else if String.eqb field "first_name" then filled (lead_first_name lead)
  else if String.eqb field "last_name" then filled (lead_last_name lead)
  else if String.eqb field "company" then filled (lead_company lead)
  else if String.eqb field "company_size" then
    match lead_company_size lead with Some _ => true | None => false end
  else if String.eqb field "industry" then filled (lead_industry lead)
  else if String.eqb field "job_title" then filled (lead_job_title lead)
  else if String.eqb field "phone" then filled (lead_phone lead)
  else if String.eqb field "budget" then
    match lead_budget lead with Some _ => true | None => false end
  else if String.eqb field "buying_timeframe" then filled (lead_buying_timeframe lead)
  else if String.eqb field "website" then filled (lead_website lead)
  else if String.eqb field "source" then filled (lead_source lead)
  else if String.eqb field "message" then filled (lead_message lead)
  else if String.eqb field "location" then
    match lead_location lead with Some _ => true | None => false end
  else if String.eqb field "created_at" then true
  else if String.eqb field "last_contact_date" then
    match lead_last_contact_date lead with Some _ => true | None => false end
  else false.

Definition member (s : string) (l : list string) : bool :=
  existsb (String.eqb s) l.

(** The pass/fail signal of each criterion; a criterion that is not
    configured contributes nothing, and a field the lead lacks does not match. *)
Definition passes_company_size (lead : Lead) (c : LeadQualificationCriteria) : bool :=
  match min_company_size c, lead_company_size lead with
  | Some least, Some n => (least <=? n)%Z
  | _, _ => false
  end.
Definition passes_industry (lead : Lead) (c : LeadQualificationCriteria) : bool :=
  match target_industries c, lead_industry lead with
  | Some wanted, Some i => member i wanted
  | _, _ => false
  end.
Definition passes_budget (lead : Lead) (c : LeadQualificationCriteria) : bool :=
  match budget_threshold c, lead_budget lead with
  | Some least, Some b => Qle_bool least b
  | _, _ => false
  end.
Definition passes_title (lead : Lead) (c : LeadQualificationCriteria) : bool :=
  match decision_maker_titles c, lead_job_title lead with
  | Some titles, Some t => member t titles
  | _, _ => false
  end.
Definition passes_timeframe (lead : Lead) (c : LeadQualificationCriteria) : bool :=
  match buying_timeframe c, lead_buying_timeframe lead with
  | Some wanted, Some t => String.eqb wanted t
  | _, _ => false
  end.

Definition credit (w : Q) (pass : bool) : Q := if pass then w else 0%Q.

Definition lead_score (rb : rubric) (lead : Lead) (c : LeadQualificationCriteria) : Q :=
  (credit (weight_company_size rb) (passes_company_size lead c)
   + credit (weight_industry rb) (passes_industry lead c)
   + credit (weight_budget rb) (passes_budget lead c)
   + credit (weight_title rb) (passes_title lead c)
   + credit (weight_timeframe rb) (passes_timeframe lead c))%Q.

(** Modelled from the spec: [qualify_lead], which [main.py] calls as
    [lead_manager.qualify_lead] and the sources do not define.  Spec 4.5:
    every configured criterion contributes a pass/fail signal, the signals are
    combined by a weighted sum and a threshold, and the required fields are
    hard gates: a missing one forces [qualified = false] whatever the score,
    with an explanatory detail and no exception. *)
Definition qualify_lead (rb : rubric) (lead : Lead)
    (criteria : LeadQualificationCriteria) : verdict :=
  let missing :=
    List.filter (fun f => negb (field_present lead f)) (required_fields criteria) in
  let score := lead_score rb lead criteria in
  {| qualified :=
       match missing with
       | [] => Qle_bool (pass_mark rb) score
       | _ :: _ => false
       end;
     score := score;
     details := map (fun f => "missing required field: " +:+ f) missing |}.

(** Modelled from the spec: [process_lead], which the endpoint
    [qualify_incoming_lead] of [main.py] calls with the lead alone and whose
    answer carries the verdict under ["qualification"]; it qualifies the lead
    against the default criteria. *)
Definition process_lead (rb : rubric) (lead : Lead) : verdict :=
  qualify_lead rb lead default_criteria.

(** *** Dates for HubSpot *)

(** A [datetime]: the constructor keeps the month in 1..12, the day in
    1..31, the hour below 24 and the minute below 60. *)
Record datetime : Type :=
  { dt_year : N; dt_month : N; dt_day : N; dt_hour : N; dt_minute : N }.

(** The fields as the constructor checks them, with the years that print
    as four digits. *)
Definition datetime_ok (d : datetime) : bool :=
  (1000 <=? dt_year d)%N && (dt_year d <=? 9999)%N &&
  (1 <=? dt_month d)%N && (dt_month d <=? 12)%N &&
  (1 <=? dt_day d)%N && (dt_day d <=? 31)%N &&
  (dt_hour d <? 24)%N && (dt_minute d <? 60)%N.

Definition HUBSPOT_DATE_FORMAT : string := "%m/%d/%Y".

(** Two digits, zero-padded. *)
Definition pad2 (n : N) : string :=
  if (n <? 10)%N then "0" +:+ pretty n else pretty n.

(** One directive of [strftime].  [%Y] prints the year in decimal; C
    libraries differ in padding it below 1000, and the model takes the years
    from 1000 on. *)
Definition directive (d : datetime) (c : ascii) : string :=
  if Ascii.eqb c "m" then pad2 (dt_month d)
  else if Ascii.eqb c "d" then pad2 (dt_day d)
  else if Ascii.eqb c "Y" then pretty (dt_year d)
  else if Ascii.eqb c "H" then pad2 (dt_hour d)
  else if Ascii.eqb c "M" then pad2 (dt_minute d)
  else String "%" (String c "").

(** [date_obj.strftime(fmt)] for the directives above. *)
Fixpoint strftime (d : datetime) (fmt : string) : string :=
  match fmt with
  | EmptyString => EmptyString
  | String c EmptyString => String c EmptyString
  | String c (String c' fmt' as tail) =>
      if Ascii.eqb c "%" then directive d c' +:+ strftime d fmt'
      else String c (strftime d tail)
  end.

Definition format_date_for_hubspot (date_obj : option datetime) : string :=
  match date_obj with
  | None => "" (* if not date_obj *)
  | Some d => strftime d HUBSPOT_DATE_FORMAT
  end.

Definition format_datetime_for_hubspot (date_obj : option datetime) : string :=
  match date_obj with
  | None => ""
  | Some d =>
      (* Return the date with time set to 8:00 AM *)
      let formatted_date := strftime d "%m/%d/%Y" in
      formatted_date +:+ " 8:00 AM"
  end.

End LeadManager.

(** ** Regular expressions of the [re] module

    The fragment used by [extract_lead_info_from_chat]: character classes,
    concatenation, alternation, greedy and lazy repetition, one capturing
    group, [\b] and [$], matched by backtracking in the order [re] tries the
    alternatives.  Text is ASCII. *)

Module Re.

Inductive regex : Type :=
| Eps
| Cls (p : ascii -> bool)
| Seq (r1 r2 : regex)
| Alt (r1 r2 : regex)
| Star (r : regex)
| LazyStar (r : regex)
| Group (r : regex)
| WordBoundary
| EndOfString.

(** [\w], [\d], [\s] and bracketed sets. *)
Definition word (c : ascii) : bool :=
  is_upper c || is_lower c || is_digit c || Ascii.eqb c "_".
Definition one_of (set : string) (c : ascii) : bool :=
  existsb (Ascii.eqb c) (list_ascii_of_string set).
Definition Chr (c : ascii) : regex := Cls (Ascii.eqb c).

Fixpoint Lit (s : string) : regex :=
  match s with
  | EmptyString => Eps
  | String c s' => Seq (Chr c) (Lit s')
  end.

(** [r+], [r+?], [r?], [r{n}] and [r{1,3}]. *)
Definition Plus (r : regex) : regex := Seq r (Star r).
Definition LazyPlus (r : regex) : regex := Seq r (LazyStar r).
Definition Opt (r : regex) : regex := Alt r Eps.
Fixpoint Rep (n : nat) (r : regex) : regex :=
  match n with
  | O => Eps
  | S n' => Seq r (Rep n' r)
  end.
Definition Rep1to3 (r : regex) : regex := Seq r (Opt (Seq r (Opt r))).

(** A position in the subject: the character before it, the text after it,
    and what group 1 holds so far. *)
Record mstate : Type :=
  { prev : option ascii; rest : string; grp : option string }.

Definition is_word_opt (c : option ascii) : bool :=
  match c with
  | Some c => word c
  | None => false
  end.

Definition next_char (s : string) : option ascii :=
  match s with
  | EmptyString => None
  | String c _ => Some c
  end.

(** The first [n] characters of [s]. *)
Definition take (n : nat) (s : string) : string := String.substring 0 n s.

(** What was consumed between two positions. *)
Definition consumed (from to : string) : string :=
  take (String.length from - String.length to) from.

(** Backtracking matcher in continuation-passing style: [k] is the rest of
    the pattern, and [None] asks for the next alternative.  A repetition
    runs at most once per remaining character, since an iteration that
    consumes nothing is not repeated. *)
Fixpoint rmatch {A} (r : regex) (st : mstate) (k : mstate -> option A)
  {struct r} : option A :=
  match r with
  | Eps => k st
  | Cls p =>
      match rest st with
      | String c s' =>
          if p c then k {| prev := Some c; rest := s'; grp := grp st |}
          else None
      | EmptyString => None
      end
  | Seq r1 r2 => rmatch r1 st (fun st' => rmatch r2 st' k)
  | Alt r1 r2 =>
      match rmatch r1 st k with
      | Some m => Some m
      | None => rmatch r2 st k
      end
  | Star r' =>
      (fix loop (n : nat) (st : mstate) : option A :=
         match n with
         | O => k st
         | S n' =>
             match rmatch r' st (fun st' =>
                     if (String.length (rest st') <? String.length (rest st))%nat
                     then loop n' st' else None) with
             | Some m => Some m
             | None => k st
             end
         end) (String.length (rest st)) st
  | LazyStar r' =>
      (fix loop (n : nat) (st : mstate) : option A :=
         match k st with
         | Some m => Some m
         | None =>
             match n with
             | O => None
             | S n' =>
                 rmatch r' st (fun st' =>
                   if (String.length (rest st') <? String.length (rest st))%nat
                   then loop n' st' else None)
             end
         end) (String.length (rest st)) st
  | Group r' =>
      rmatch r' st (fun st' =>
        k {| prev := prev st'; rest := rest st';
             grp := Some (consumed (rest st) (rest st')) |})
  | WordBoundary =>
      if xorb (is_word_opt (prev st)) (is_word_opt (next_char (rest st)))
      then k st else None
  | EndOfString =>
      match rest st with
      | EmptyString => k st
      | String c EmptyString => if Ascii.eqb c "010" then k st else None
      | _ => None
      end
  end.

(** [v] occurs in [s] as a run of consecutive characters. *)
Definition piece_of (v s : string) : Prop :=
  exists pre post, s = pre +:+ v +:+ post.

(** How the matcher moves from one position to a later one: forward in the
    subject, and group 1 is left alone or set to a piece of what was still
    to read. *)
Definition reaches (st st' : mstate) : Prop :=
  (exists pre, rest st = pre +:+ rest st') /\
  (grp st' = grp st \/ exists g, grp st' = Some g /\ piece_of g (rest st)).

(** A match object: [group(0)] and [group(1)]. *)
Record match_obj : Type := { group0 : string; group1 : option string }.

(** [re.search]: the match at the leftmost position that has one. *)
Fixpoint search_from (r : regex) (before : option ascii) (s : string)
  : option match_obj :=
  match rmatch r {| prev := before; rest := s; grp := None |}
          (fun st' => Some {| group0 := consumed s (rest st');
                              group1 := grp st' |}) with
  | Some m => Some m
  | None =>
      match s with
      | EmptyString => None
      | String c s' => search_from r (Some c) s'
      end
  end.

Definition search (r : regex) (s : string) : option match_obj :=
  search_from r None s.

End Re.

(** ** [main.py] *)

Module Main.
Import Re.

(** [str.split()] without argument: the maximal runs without whitespace. *)
Fixpoint split_ws_aux (cur : string) (s : string) : list string :=
  let flush := match cur with EmptyString => [] | _ => [cur] end in
  match s with
  | EmptyString => flush
  | String c s' =>
      if is_space c then flush ++ split_ws_aux EmptyString s'
      else split_ws_aux (cur +:+ String c EmptyString) s'
  end.
Definition split_ws (s : string) : list string := split_ws_aux EmptyString s.

(** [str.strip()] *)
Fixpoint lstrip (s : string) : string :=
  match s with
  | String c s' => if is_space c then lstrip s' else s
  | EmptyString => EmptyString
  end.
Fixpoint rstrip (s : string) : string :=
  match s with
  | EmptyString => EmptyString
  | String c s' =>
      match rstrip s' with
      | EmptyString => if is_space c then EmptyString else String c EmptyString
      | t => String c t
      end
  end.
Definition strip (s : string) : string := rstrip (lstrip s).

(** [[\w.+-]+@[\w-]+\.[\w.-]+] *)
Definition email_re : regex :=
  Seq (Plus (Cls (fun c => word c || one_of ".+-" c)))
 (Seq (Chr "@")
 (Seq (Plus (Cls (fun c => word c || one_of "-" c)))
 (Seq (Chr ".")
      (Plus (Cls (fun c => word c || one_of ".-" c)))))).

(** [\b(?:\+\d{1,3}[-.\s]?)?\(?\d{3}\)?[-.\s]?\d{3}[-.\s]?\d{4}\b] *)
Definition phone_re : regex :=
  let d := Cls is_digit in
  let sep := Opt (Cls (fun c => one_of "-." c || is_space c)) in
  Seq WordBoundary
 (Seq (Opt (Seq (Chr "+") (Seq (Rep1to3 d) sep)))
 (Seq (Opt (Chr "("))
 (Seq (Rep 3 d)
 (Seq (Opt (Chr ")"))
 (Seq sep
 (Seq (Rep 3 d)
 (Seq sep
 (Seq (Rep 4 d) WordBoundary)))))))).

(** [(?:I am|my name is|name[:\s]+)\s+([A-Z][a-z]+(?:\s+[A-Z][a-z]+)?)] *)
Definition name_re : regex :=
  let cap := Seq (Cls is_upper) (Plus (Cls is_lower)) in
  Seq (Alt (Lit "I am")
      (Alt (Lit "my name is")
           (Seq (Lit "name") (Plus (Cls (fun c => one_of ":" c || is_space c))))))
 (Seq (Plus (Cls is_space))
      (Group (Seq cap (Opt (Seq (Plus (Cls is_space)) cap))))).

(** [(?:company[:\s]+|work(?:ing)?\s+(?:at|for)|from)\s+([A-Z][A-Za-z0-9\s&]+?)(?:\.|\s|$)] *)
Definition company_re : regex :=
  Seq (Alt (Seq (Lit "company") (Plus (Cls (fun c => one_of ":" c || is_space c))))
      (Alt (Seq (Lit "work")
           (Seq (Opt (Lit "ing"))
           (Seq (Plus (Cls is_space)) (Alt (Lit "at") (Lit "for")))))
           (Lit "from")))
 (Seq (Plus (Cls is_space))
 (Seq (Group (Seq (Cls is_upper)
                  (LazyPlus (Cls (fun c => is_upper c || is_lower c || is_digit c
                                           || is_space c || one_of "&" c)))))
      (Alt (Chr ".") (Alt (Cls is_space) EndOfString)))).

Definition extract_lead_info_from_chat (message : string) : gmap string string :=
  let lead_info : gmap string string := ∅ in
  (* Extract email with regex *)
  let lead_info :=
    match search email_re message with
    | Some email_match => <["email" := group0 email_match]> lead_info
    | None => lead_info
    end in
  (* Extract phone numbers *)
  let lead_info :=
    match search phone_re message with
    | Some phone_match => <["phone" := group0 phone_match]> lead_info
    | None => lead_info
    end in
  (* Extract name patterns (very basic) *)
  let lead_info :=
    match search name_re message with
    | Some name_match =>
        let full_name := split_ws (default EmptyString (group1 name_match)) in
        match full_name with
        | [] => lead_info
        | first :: _ =>
            let lead_info := <["first_name" := first]> lead_info in
            if (1 <? length full_name)%nat
            then <["last_name" := List.last full_name first]> lead_info
            else lead_info
        end
    | None => lead_info
    end in
  (* Extract company *)
  let lead_info :=
    match search company_re message with
    | Some company_match =>
        <["company" := strip (default EmptyString (group1 company_match))]> lead_info
    | None => lead_info
    end in
  lead_info.

(** [size_mapping], in the order [items()] walks it. *)
Definition size_mapping : list (string * Z) :=
  [ ("small", 25%Z); ("medium", 100%Z); ("large", 500%Z); ("enterprise", 1000%Z) ].

(** The [for key, value in size_mapping.items()] loop. *)
Fixpoint first_size (items : list (string * Z)) (size_lower : string) : option Z :=
  match items with
  | [] => None
  | (key, value) :: rest =>
      if str_contains key size_lower then Some value
      else first_size rest size_lower
  end.

Definition estimate_company_size_to_number (size_description : option string)
  : option Z :=
  match size_description with
  | None | Some EmptyString => None (* if not size_description *)
  | Some size_description =>
      let size_lower := lower size_description in
      first_size size_mapping size_lower
  end.

(** *** HubSpot contact properties *)

(** The model [HubSpotContact]. *)
Record HubSpotContact : Type :=
  { contact_email : string;
    contact_firstname : option string;
    contact_lastname : option string;
    contact_phone : option string;
    contact_company : option string;
    contact_website : option string;
    contact_jobtitle : option string;
    contact_lifecycle_stage : option string;
    contact_lead_source : option string }.

(** [if value: properties[key] = value] *)
Definition set_if (key : string) (value : option string)
    (properties : gmap string string) : gmap string string :=
  match value with
  | None | Some EmptyString => properties
  | Some v => <[key := v]> properties
  end.

Definition format_hubspot_contact_properties (contact : HubSpotContact)
  : gmap string string :=
  let properties : gmap string string := ∅ in
  (* Add all non-None properties *)
  let properties := set_if "email" (Some (contact_email contact)) properties in
  let properties := set_if "firstname" (contact_firstname contact) properties in
  let properties := set_if "lastname" (contact_lastname contact) properties in
  let properties := set_if "phone" (contact_phone contact) properties in
  let properties := set_if "company" (contact_company contact) properties in
  let properties := set_if "website" (contact_website contact) properties in
  let properties := set_if "jobtitle" (contact_jobtitle contact) properties in
  let properties :=
    set_if "lifecyclestage" (contact_lifecycle_stage contact) properties in
  let properties := set_if "lead_source" (contact_lead_source contact) properties in
  properties.

End Main.


(** ** Sample inputs for the examples *)

Module Samples.
Import LeadManager.

Definition counting_rng : rng := {| tape := fun i => N.of_nat i; cursor := 0 |}.





(** A lead that passes every criterion of [strict_criteria] and has no
    email. *)
Definition strict_criteria : LeadQualificationCriteria :=
  {| min_company_size := Some 50%Z;
     target_industries := Some ["software"; "retail"];
     budget_threshold := Some 10000%Q;
     decision_maker_titles := Some ["CTO"; "CEO"];
     buying_timeframe := Some "immediate";
     required_fields := ["email"] |}.
Definition even_rubric : rubric :=
  {| weight_company_size := 20; weight_industry := 20; weight_budget := 20;
     weight_title := 20; weight_timeframe := 20; pass_mark := 60 |}.
Definition lead_without_email : Lead :=
  {| lead_email := None;
     lead_first_name := Some "Asha"; lead_last_name := Some "Rao";
     lead_company := Some "Rao Systems"; lead_company_size := Some 400%Z;
     lead_industry := Some "software"; lead_job_title := Some "CTO";
     lead_phone := Some "555-010-2000"; lead_budget := Some 50000%Q;
     lead_buying_timeframe := Some "immediate";
     lead_website := Some "rao.example"; lead_source := Some "chat";
     lead_message := Some "please call"; lead_location := None;
     lead_created_at := 0%Z; lead_last_contact_date := None |}.

End Samples.

(** * Properties *)

Import LeadManager Main Re Samples.

(** ** The distance calculator *)

Section Distance.
Local Open Scope R_scope.

Lemma sin_half_sq (x y : R) :
  sin ((y - x) / 2) ^ 2 = (1 - (cos y * cos x + sin y * sin x)) / 2.
Proof.
  rewrite <- cos_minus.
  replace (y - x) with (2 * ((y - x) / 2)) at 2 by field.
  rewrite cos_2a_sin. field.
Qed.

Lemma sin_sq_bounds (x : R) : 0 <= sin x ^ 2 <= 1.
Proof.
  pose proof (SIN_bound x) as [Hl Hu]. split; nra.
Qed.

(** The argument of both square roots stays in their domain, also for
    latitudes outside [-90, 90], where the product of cosines is negative. *)
Lemma hav_a_bounds (lat1 lon1 lat2 lon2 : R) :
  0 <= hav_a lat1 lon1 lat2 lon2 <= 1.
Proof.
  unfold hav_a.
  set (x := radians lat1). set (y := radians lat2).
  set (h := sin ((radians lon2 - radians lon1) / 2) ^ 2).
  assert (Hh : 0 <= h <= 1) by apply sin_sq_bounds.
  rewrite sin_half_sq.
  pose proof (COS_bound (y - x)) as Hm. rewrite cos_minus in Hm.
  pose proof (COS_bound (y + x)) as Hp. rewrite cos_plus in Hp.
  set (P := cos y * cos x) in *. set (S := sin y * sin x) in *.
  replace (cos x * cos y) with P by (unfold P; ring).
  split; nra.
Qed.

(** [calculate_distance] never raises: it returns the Haversine value. *)
Lemma calculate_distance_eq (lat1 lon1 lat2 lon2 : R) :
  calculate_distance lat1 lon1 lat2 lon2 = Ok (haversine lat1 lon1 lat2 lon2).
Proof.
  pose proof (hav_a_bounds lat1 lon1 lat2 lon2) as [Hl Hu].
  unfold calculate_distance, haversine. cbv zeta.
  fold (hav_a lat1 lon1 lat2 lon2). unfold py_sqrt.
  destruct (Rle_dec 0 (hav_a lat1 lon1 lat2 lon2)) as [_|Hn]; [|lra].
  cbn.
  destruct (Rle_dec 0 (1 - hav_a lat1 lon1 lat2 lon2)) as [_|Hn]; [|lra].
  reflexivity.
Qed.

Lemma atan2_nonneg (y x : R) : 0 <= y -> 0 <= x -> 0 <= atan2 y x.
Proof.
  intros Hy Hx. unfold atan2.
  destruct (Rlt_dec 0 x) as [Hpos|Hnpos].
  - destruct (Req_dec y 0) as [->|Hne].
    + unfold Rdiv. rewrite Rmult_0_l, atan_0. lra.
    + left. rewrite <- atan_0. apply atan_increasing.
      apply Rdiv_lt_0_compat; lra.
  - destruct (Rlt_dec x 0); [lra|].
    destruct (Rlt_dec 0 y); [pose proof PI_RGT_0; lra|].
    destruct (Rlt_dec y 0); lra.
Qed.

Lemma haversine_nonneg (lat1 lon1 lat2 lon2 : R) :
  0 <= haversine lat1 lon1 lat2 lon2.
Proof.
  unfold haversine.
  pose proof (atan2_nonneg (sqrt (hav_a lat1 lon1 lat2 lon2))
                (sqrt (1 - hav_a lat1 lon1 lat2 lon2))
                (sqrt_pos _) (sqrt_pos _)).
  nra.
Qed.

Lemma hav_a_diag (lat lon : R) : hav_a lat lon lat lon = 0.
Proof.
  unfold hav_a.
  replace ((radians lat - radians lat) / 2) with 0 by field.
  replace ((radians lon - radians lon) / 2) with 0 by field.
  rewrite sin_0. ring.
Qed.


Lemma haversine_diag (lat lon : R) : haversine lat lon lat lon = 0.
Proof.
  unfold haversine. rewrite hav_a_diag, Rminus_0_r, sqrt_0, sqrt_1.
  unfold atan2. destruct (Rlt_dec 0 1) as [_|Hn]; [|lra].
  unfold Rdiv. rewrite Rmult_0_l, atan_0. ring.
Qed.


End Distance.

(** ** The nearest named area *)

Section NearestArea.
Local Open Scope R_scope.

Variable py_float : string -> option Q.

Lemma lt_min_Some (d m : R) : lt_min d (Some m) = true <-> d < m.
Proof.
  unfold lt_min. destruct (Rlt_dec d m); split; intros; try done.
Qed.

(** The scan returns the current candidate when no area improves on the
    current minimum, and otherwise the first area of least distance. *)
Lemma nearest_loop_spec (latitude longitude : Q) (areas : list area) :
  forall (min_distance : option R) (nearest_area : string),
  exists r,
    nearest_loop latitude longitude areas min_distance nearest_area = Ok r /\
    ((r = nearest_area /\
      forall a, In a areas ->
        lt_min (area_distance latitude longitude a) min_distance = false)
     \/
     exists (i : nat) (a : area),
       areas !! i = Some a /\ r = area_name a /\
       lt_min (area_distance latitude longitude a) min_distance = true /\
       (forall j a', areas !! j = Some a' ->
          area_distance latitude longitude a <= area_distance latitude longitude a') /\
       (forall j a', (j < i)%nat -> areas !! j = Some a' ->
          area_distance latitude longitude a < area_distance latitude longitude a')).
Proof.
  induction areas as [|a0 rest IH]; intros m n; cbn [nearest_loop].
  - exists n. split; [reflexivity|]. left. split; [reflexivity|]. intros a [].
  - rewrite calculate_distance_eq. cbn. fold (area_distance latitude longitude a0).
    set (d0 := area_distance latitude longitude a0).
    destruct (lt_min d0 m) eqn:Hlt.
    + destruct (IH (Some d0) (area_name a0)) as (r & Hr & Hcase).
      exists r. split; [exact Hr|]. right.
      destruct Hcase as [[-> Hnone] | (i & a & Hi & -> & Hlt' & Hmin & Hfirst)].
      * exists 0%nat, a0. repeat split; try done.
        -- intros [|j] a' Hj; cbn in Hj.
           ++ injection Hj as <-. fold d0. lra.
           ++ apply list_elem_of_lookup_2, list_elem_of_In in Hj.
              specialize (Hnone a' Hj).
              destruct (Rlt_dec (area_distance latitude longitude a') d0) as [Hc|Hc].
              { apply lt_min_Some in Hc. congruence. }
              fold d0. lra.
        -- intros j a' Hj. lia.
      * apply lt_min_Some in Hlt'.
        exists (S i), a. repeat split; try done.
        -- destruct m as [m|]; [|reflexivity].
           apply lt_min_Some in Hlt. apply lt_min_Some. lra.
        -- intros [|j] a' Hj; cbn in Hj.
           ++ injection Hj as <-. fold d0. lra.
           ++ eapply Hmin; eauto.
        -- intros [|j] a' Hji Hj; cbn in Hj.
           ++ injection Hj as <-. exact Hlt'.
           ++ eapply Hfirst; [|eauto]. lia.
    + destruct (IH m n) as (r & Hr & Hcase).
      exists r. split; [exact Hr|].
      destruct Hcase as [[-> Hnone] | (i & a & Hi & -> & Hlt' & Hmin & Hfirst)].
      * left. split; [reflexivity|]. intros a [<-|Ha]; [exact Hlt | auto].
      * assert (Hd : area_distance latitude longitude a < d0).
        { destruct m as [m|]; [|discriminate].
          apply lt_min_Some in Hlt'.
          destruct (Rlt_dec d0 m) as [Hc|Hc].
          { apply lt_min_Some in Hc. congruence. }
          lra. }
        right. exists (S i), a. repeat split; try done.
        -- intros [|j] a' Hj; cbn in Hj.
           ++ injection Hj as <-. fold d0. lra.
           ++ eapply Hmin; eauto.
        -- intros [|j] a' Hji Hj; cbn in Hj.
           ++ injection Hj as <-. exact Hd.
           ++ eapply Hfirst; [|eauto]. lia.
Qed.

Lemma parse_loc_Ok (s : string) (latitude longitude : Q) :
  parse_loc py_float (PStr s) = Ok (latitude, longitude) <->
  exists a b, split "," s = [a; b] /\
              py_float a = Some latitude /\ py_float b = Some longitude.
Proof.
  unfold parse_loc. split.
  - destruct (split "," s) as [|a [|b [|c l]]]; try discriminate.
    destruct (py_float a) eqn:Ha, (py_float b) eqn:Hb; try discriminate.
    intros [= <- <-]. eauto.
  - intros (a & b & -> & -> & ->). reflexivity.
Qed.


End NearestArea.

(** ** The nearby-product matcher *)

Section StableSort.
Local Open Scope R_scope.

Context {A : Type} (key : A -> R).










End StableSort.

Section NearbyProducts.
Local Open Scope R_scope.

Variables lat lon max_distance : R.

Lemma nearby_loop_spec (locations : list product_location) :
  forall nearby,
    nearby_loop lat lon max_distance locations nearby =
    Ok (nearby ++ (with_distance lat lon <$>
                   filter (fun p => product_distance lat lon p <= max_distance)
                     locations)).
Proof.
  induction locations as [|p rest IH]; intros nearby; cbn [nearby_loop].
  - now rewrite filter_nil, app_nil_r.
  - rewrite calculate_distance_eq, filter_cons.
    change (haversine lat lon (Q2R (loc_latitude p)) (Q2R (loc_longitude p)))
      with (product_distance lat lon p).
    unfold mbind, result_bind, Py.bind, decide, Rle_decision.
    destruct (Rle_dec (product_distance lat lon p) max_distance).
    + rewrite IH, <- app_assoc. reflexivity.
    + apply IH.
Qed.

Lemma find_nearby_products_eq :
  find_nearby_products lat lon max_distance =
  Ok (list_sort distance_km
        (with_distance lat lon <$>
         filter (fun p => product_distance lat lon p <= max_distance)
           PRODUCT_LOCATIONS)).
Proof.
  unfold find_nearby_products. now rewrite nearby_loop_spec.
Qed.

End NearbyProducts.






(** ** The random oracle *)

Section Oracle.

Lemma choice_spec {A} (seq : list A) (g : rng) :
  seq <> [] ->
  exists a, choice seq g = (Ok a, snd (next_raw g)) /\ In a seq.
Proof.
  destruct seq as [|x seq']; [done|]. intros _.
  unfold choice, randbelow. cbn [next_raw fst snd].
  eexists. split; [reflexivity|].
  apply nth_In.
  pose proof (N.mod_lt (tape g (cursor g)) (N.of_nat (length (x :: seq')))) as H.
  cbn [length] in *. lia.
Qed.

Lemma random_bounds (g : rng) : (0 <= fst (random g) /\ fst (random g) < 1)%Q.
Proof.
  unfold random. cbn [next_raw fst].
  set (raw := tape g (cursor g)).
  assert (H : (raw mod 2 ^ 53 < 2 ^ 53)%N) by (now apply N.mod_lt).
  apply N2Z.inj_lt in H.
  change (Z.of_N (2 ^ 53)) with (Z.pos (2 ^ 53)) in H.
  pose proof (N2Z.is_nonneg (raw mod 2 ^ 53)) as H0.
  revert H H0. generalize (Z.of_N (raw mod 2 ^ 53)). intros z H H0.
  split.
  - unfold Qle. cbn [Qnum Qden]. rewrite Z.mul_0_l, Z.mul_1_r. exact H0.
  - unfold Qlt. cbn [Qnum Qden]. rewrite Z.mul_1_r, Z.mul_1_l. exact H.
Qed.

Lemma uniform_bounds (a b : Q) (g : rng) :
  (a <= b -> a <= fst (uniform a b g) /\ fst (uniform a b g) <= b)%Q.
Proof.
  intros Hab. unfold uniform.
  pose proof (random_bounds g) as [Hl Hu].
  destruct (random g) as [u g']. cbn [fst] in *.
  split; nra.
Qed.

End Oracle.

(** ** The geolocation resolver *)

Section Resolver.

Variable py_float : string -> option Q.
Variable float_repr : Q -> string.


Lemma jitter_close (base offset : Q) :
  (- (1 # 100) <= offset -> offset <= 1 # 100 ->
   Qabs (base + offset - base) <= 1 # 100)%Q.
Proof.
  intros Hl Hu. apply Qabs_Qle_condition. split; lra.
Qed.

(** The synthetic record: it is always produced, its area is one of the
    catalog, and the two numbers printed in ["loc"] are within a hundredth of
    a degree of that area's coordinates. *)
Lemma generate_fake_ip_info_shape (g : rng) :
  exists (ip_data : gmap string pyval) (g' : rng) (a : area) (lat lon : Q),
    generate_fake_ip_info float_repr true g = (Ok ip_data, g') /\
    In a CHENNAI_areas /\
    ip_data !! "area" = Some (PStr (area_name a)) /\
    ip_data !! "loc" = Some (PStr (float_repr lat +:+ "," +:+ float_repr lon)) /\
    (Qabs (lat - area_latitude a) <= 1 # 100)%Q /\
    (Qabs (lon - area_longitude a) <= 1 # 100)%Q.
Proof.
  unfold generate_fake_ip_info.
  destruct (choice_spec CHENNAI_areas g) as (a & -> & Ha); [done|].
  set (g1 := snd (next_raw g)).
  pose proof (uniform_bounds (-0.01) 0.01 g1) as H1.
  destruct (uniform (-0.01) 0.01 g1) as [lat_offset g2].
  pose proof (uniform_bounds (-0.01) 0.01 g2) as H2.
  destruct (uniform (-0.01) 0.01 g2) as [long_offset g3].
  destruct (randint 0 255 g3) as [ip1 g4].
  destruct (randint 0 255 g4) as [ip2 g5].
  destruct (randint 0 255 g5) as [ip3 g6].
  destruct (randint 100 999 g6) as [host g7].
  destruct (randint 10000 99999 g7) as [asn g8].
  destruct (randint 10 99 g8) as [post g9].
  cbn [fst] in H1, H2.
  destruct H1 as [H1l H1u]; [done|]. destruct H2 as [H2l H2u]; [done|].
  eexists _, g9, a,
    (area_latitude a + lat_offset)%Q, (area_longitude a + long_offset)%Q.
  split; [reflexivity|]. split; [exact Ha|].
  split; [reflexivity|]. split; [reflexivity|].
  split; apply jitter_close; assumption.
Qed.

Variable getDetails : option string -> result (gmap string pyval).

Lemma get_ip_info_try_area (ip : option string) (ip_data : gmap string pyval) :
  get_ip_info_try py_float getDetails ip = Ok ip_data ->
  is_Some (ip_data !! "area").
Proof.
  unfold get_ip_info_try.
  destruct (if truthy ip then getDetails ip else getDetails None)
    as [answer|e]; [|discriminate].
  cbn. destruct (answer !! "loc") as [loc|]; cbn.
  - destruct (py_in "," loc) as [[|]|e]; cbn; intros [= <-];
      rewrite lookup_insert_eq; eauto.
  - intros [= <-]. rewrite lookup_insert_eq; eauto.
Qed.

(** C2.  For every IP argument, every behaviour of the provider and every
    state of the random generator, [get_ip_info] returns a record and the
    record has an ["area"] entry: no exception leaves the function. *)
Theorem get_ip_info_total (ip : option string) (g : rng) :
  exists (ip_data : gmap string pyval) (g' : rng),
    get_ip_info py_float float_repr getDetails ip g = (Ok ip_data, g') /\ is_Some (ip_data !! "area").
Proof.
  unfold get_ip_info.
  destruct (get_ip_info_try py_float getDetails ip) as [ip_data|e] eqn:Htry.
  - exists ip_data, g. split; [reflexivity|].
    eapply get_ip_info_try_area, Htry.
  - destruct (generate_fake_ip_info_shape g)
      as (ip_data & g' & a & lat & lon & -> & _ & Harea & _).
    exists ip_data, g'. split; [reflexivity|]. rewrite Harea. eauto.
Qed.


End Resolver.

Section Fallback.

Variable py_float : string -> option Q.
Variable float_repr : Q -> string.



End Fallback.


Section Successive.

Variable py_float : string -> option Q.
Variable float_repr : Q -> string.






End Successive.


(** ** The lead extractor *)

(** C8.  On the first message the extractor yields the first name, the last
    name and the email and nothing else (no phone, no company); on the second
    it yields no field at all. *)
Theorem extract_lead_info_examples :
  extract_lead_info_from_chat "my name is John Doe, email john@doe.com"
  = <["first_name" := "John"]>
      (<["last_name" := "Doe"]> (<["email" := "john@doe.com"]> ∅)) /\
  dom (extract_lead_info_from_chat "my name is John Doe, email john@doe.com")
  = ({["first_name"; "last_name"; "email"]} : gset string) /\
  extract_lead_info_from_chat "no contact info here" = ∅.
Proof.
  split; [vm_compute; reflexivity|].
  split; [vm_compute; reflexivity|].
  vm_compute; reflexivity.
Qed.

(** The four extractions, one by one, on a message that has all the fields. *)
Example extract_lead_info_all_fields :
  map_to_list (extract_lead_info_from_chat
    "I am Jane Roe from Acme Corp. Call +1 (555) 123-4567 or jane.roe@acme.io")
  = [("company", "Acme"); ("email", "jane.roe@acme.io");
     ("first_name", "Jane"); ("last_name", "Roe"); ("phone", "555) 123-4567")].
Proof. vm_compute. reflexivity. Qed.

(** ** The size bucket *)

Lemma first_size_mapping (size_lower : string) :
  first_size size_mapping size_lower =
  if str_contains "small" size_lower then Some 25%Z
  else if str_contains "medium" size_lower then Some 100%Z
  else if str_contains "large" size_lower then Some 500%Z
  else if str_contains "enterprise" size_lower then Some 1000%Z
  else None.
Proof. reflexivity. Qed.

(** C10.  [estimate_company_size_to_number] returns [None] exactly when the
    description is [None] or its lowercase form contains none of the four
    keys; otherwise it returns the number of the first key, in the order
    small, medium, large, enterprise, that the lowercase form contains.  A
    description with both "small" and "large" gives 25. *)
Theorem estimate_company_size_to_number_spec (size_description : option string) :
  (estimate_company_size_to_number size_description = None <->
   size_description = None \/
   exists s, size_description = Some s /\
     forall key, In key ["small"; "medium"; "large"; "enterprise"] ->
       str_contains key (lower s) = false) /\
  (forall s, size_description = Some s ->
     (str_contains "small" (lower s) = true ->
      estimate_company_size_to_number size_description = Some 25%Z) /\
     (str_contains "small" (lower s) = false ->
      str_contains "medium" (lower s) = true ->
      estimate_company_size_to_number size_description = Some 100%Z) /\
     (str_contains "small" (lower s) = false ->
      str_contains "medium" (lower s) = false ->
      str_contains "large" (lower s) = true ->
      estimate_company_size_to_number size_description = Some 500%Z) /\
     (str_contains "small" (lower s) = false ->
      str_contains "medium" (lower s) = false ->
      str_contains "large" (lower s) = false ->
      str_contains "enterprise" (lower s) = true ->
      estimate_company_size_to_number size_description = Some 1000%Z)) /\
  estimate_company_size_to_number (Some "Small team, LARGE ambitions")
  = Some 25%Z.
Proof.
  split; [|split; [|reflexivity]].
  - destruct size_description as [[|c s]|].
    + split; [|reflexivity]. intros _. right. exists EmptyString.
      split; [reflexivity|]. intros key Hkey.
      repeat (destruct Hkey as [<-|Hkey]; [reflexivity|]). destruct Hkey.
    + unfold estimate_company_size_to_number. rewrite first_size_mapping.
      set (l := lower (String c s)). split.
      * intros Hnone. right. exists (String c s). split; [reflexivity|].
        fold l. intros key Hkey.
        repeat (destruct Hkey as [<-|Hkey];
                [destruct (str_contains _ l); try discriminate Hnone;
                 repeat (destruct (str_contains _ l); try discriminate Hnone);
                 reflexivity|]).
        destruct Hkey.
      * intros [Hn | (s' & [= <-] & Hall)]; [discriminate Hn|]. fold l in Hall.
        rewrite !Hall by (cbn; tauto). reflexivity.
    + split; [intros _; now left | reflexivity].
  - intros s ->. destruct s as [|c s].
    + repeat split; intros; discriminate.
    + unfold estimate_company_size_to_number. rewrite first_size_mapping.
      set (l := lower (String c s)).
      repeat split; intros; repeat match goal with
        | H : str_contains _ l = _ |- _ => rewrite H; clear H
        end; reflexivity.
Qed.

(** ** The qualifier *)

(** C1.  A lead without email is never qualified when email is a required
    field, which it is by default and so for the endpoint: whatever the
    rubric, the other criteria and the other fields of the lead, hence
    whatever the score. *)
Theorem missing_email_never_qualified
    (rb : rubric) (lead : Lead) (criteria : LeadQualificationCriteria) :
  lead_email lead = None ->
  In "email" (required_fields criteria) ->
  qualified (qualify_lead rb lead criteria) = false /\
  qualified (process_lead rb lead) = false.
Proof.
  intros Hemail Hreq.
  assert (Hgate : forall c, In "email" (required_fields c) ->
                    qualified (qualify_lead rb lead c) = false).
  { intros c Hc. unfold qualify_lead. cbn [qualified].
    destruct (List.filter _ (required_fields c)) as [|f fs] eqn:Hf; [|reflexivity].
    assert (Hin : In "email" (List.filter
                    (fun f => negb (field_present lead f)) (required_fields c))).
    { apply filter_In. split; [exact Hc|].
      unfold field_present. cbn. now rewrite Hemail. }
    rewrite Hf in Hin. destruct Hin. }
  split; [now apply Hgate|].
  apply Hgate. now left.
Qed.

(** The lead of the samples meets all five criteria, scores 100 against a
    pass mark of 60, and is turned down for its missing email. *)
Lemma missing_email_never_qualified_witness :
  lead_score even_rubric lead_without_email strict_criteria == 100 /\
  qualified (qualify_lead even_rubric lead_without_email strict_criteria) = false /\
  qualified (process_lead even_rubric lead_without_email) = false.
Proof.
  split; [reflexivity|].
  apply (missing_email_never_qualified even_rubric lead_without_email
           strict_criteria).
  - reflexivity.
  - simpl. left. reflexivity.
Defined.

(** ** The catalogs at work *)

Section CatalogExamples.
Local Open Scope R_scope.

Lemma atan2_pos (y x : R) : 0 < y -> 0 <= x -> 0 < atan2 y x.
Proof.
  intros Hy Hx. unfold atan2.
  destruct (Rlt_dec 0 x) as [Hpos|Hnpos].
  - rewrite <- atan_0. apply atan_increasing. apply Rdiv_lt_0_compat; lra.
  - destruct (Rlt_dec x 0); [lra|].
    destruct (Rlt_dec 0 y); [pose proof PI_RGT_0; lra | lra].
Qed.

Lemma sin_sq_pos (x : R) : x <> 0 -> - PI < x < PI -> 0 < sin x ^ 2.
Proof.
  intros Hne [Hl Hu].
  assert (Hs : sin x <> 0).
  { destruct (Rlt_dec 0 x) as [Hpos|Hneg].
    - pose proof (sin_gt_0 x Hpos Hu). lra.
    - pose proof (sin_gt_0 (- x) ltac:(lra) ltac:(lra)) as H.
      rewrite sin_neg in H. lra. }
  nra.
Qed.

(** Two points of the northern hemisphere at different latitudes are at a
    positive distance. *)
Lemma haversine_pos (lat1 lon1 lat2 lon2 : R) :
  0 < lat1 < 90 -> 0 < lat2 < 90 -> lat1 <> lat2 ->
  0 < haversine lat1 lon1 lat2 lon2.
Proof.
  intros H1 H2 Hne. pose proof PI_RGT_0 as Hpi.
  assert (Hr : forall x, 0 < x < 90 -> 0 < radians x < PI / 2).
  { intros x Hx. unfold radians. split; nra. }
  pose proof (Hr lat1 H1) as Hr1. pose proof (Hr lat2 H2) as Hr2.
  assert (Ha : 0 < hav_a lat1 lon1 lat2 lon2).
  { unfold hav_a.
    assert (Hc1 : 0 < cos (radians lat1)) by (apply cos_gt_0; lra).
    assert (Hc2 : 0 < cos (radians lat2)) by (apply cos_gt_0; lra).
    assert (Hs : 0 < sin ((radians lat2 - radians lat1) / 2) ^ 2).
    { apply sin_sq_pos; [|lra].
      unfold radians. intros Heq. apply Hne.
      assert (Hk : 0 < PI / 180) by lra.
      assert (Hd : (lat2 - lat1) * (PI / 180) = 0) by lra.
      apply Rmult_integral in Hd as [Hd|Hd]; lra. }
    pose proof (sin_sq_bounds ((radians lon2 - radians lon1) / 2)) as [Hh _].
    assert (0 <= cos (radians lat1) * cos (radians lat2)
                 * sin ((radians lon2 - radians lon1) / 2) ^ 2).
    { apply Rmult_le_pos; [apply Rmult_le_pos; lra | exact Hh]. }
    lra. }
  unfold haversine.
  pose proof (atan2_pos (sqrt (hav_a lat1 lon1 lat2 lon2))
                (sqrt (1 - hav_a lat1 lon1 lat2 lon2))
                (sqrt_lt_R0 _ Ha) (sqrt_pos _)).
  nra.
Qed.


Lemma product_distance_pos (lat lon : R) (p : product_location) :
  In p PRODUCT_LOCATIONS ->
  0 < lat < 90 -> lat <> Q2R (loc_latitude p) ->
  0 < product_distance lat lon p.
Proof.
  intros Hp Hlat Hne. unfold product_distance.
  apply haversine_pos; [exact Hlat| |exact Hne].
  repeat (destruct Hp as [<-|Hp]; [unfold Q2R; cbn; lra|]). destruct Hp.
Qed.

Lemma py_round_0 : py_round 0 2 = 0.
Proof.
  unfold py_round, round_half_even. rewrite Rmult_0_l.
  assert (Hf : Zfloor 0 = 0%Z) by (apply Zfloor_eq; cbn; lra).
  rewrite Hf. destruct (Rlt_dec (0 - 0) (1 / 2)) as [_|Hn]; [|lra].
  cbn. lra.
Qed.


(** With radius 0, at the coordinates of the first product, the answer is
    that product alone, at distance 0. *)
Example find_nearby_products_radius_zero :
  find_nearby_products (Q2R 13.1133) (Q2R 80.1538) 0 =
  Ok [ {| location :=
            {| loc_name := "Chennai Office Solutions";
               loc_type := "office_supplies";
               loc_latitude := 13.1133; loc_longitude := 80.1538;
               loc_address := "23 Ambattur Industrial Estate, Chennai" |};
          distance_km := 0 |} ].
Proof.
  rewrite find_nearby_products_eq.
  assert (Hlat : 0 < Q2R 13.1133 < 90) by (unfold Q2R; cbn; lra).
  assert (Hfar : forall p, In p (tl PRODUCT_LOCATIONS) ->
            ~ product_distance (Q2R 13.1133) (Q2R 80.1538) p <= 0).
  { intros p Hp.
    pose proof (product_distance_pos (Q2R 13.1133) (Q2R 80.1538) p
                  (or_intror Hp) Hlat) as Hpos.
    assert (Hne : Q2R 13.1133 <> Q2R (loc_latitude p)).
    { cbn in Hp.
      repeat (destruct Hp as [<-|Hp]; [unfold Q2R; cbn; lra|]). destruct Hp. }
    specialize (Hpos Hne). lra. }
  unfold PRODUCT_LOCATIONS in *. cbn [tl] in Hfar.
  rewrite filter_cons_True.
  2:{ unfold product_distance. cbn [loc_latitude loc_longitude].
      rewrite haversine_diag. lra. }
  rewrite !filter_cons_False, filter_nil by (apply Hfar; cbn; tauto).
  cbn [fmap list_fmap list_sort fold_right insert_by_key].
  unfold with_distance, product_distance. cbn [loc_latitude loc_longitude].
  now rewrite haversine_diag, py_round_0.
Qed.

(** No distance is negative: a negative radius selects nothing. *)
Example find_nearby_products_negative_radius (lat lon : R) :
  find_nearby_products lat lon (-1) = Ok [].
Proof.
  rewrite find_nearby_products_eq.
  replace (filter _ PRODUCT_LOCATIONS) with (@nil product_location); [done|].
  symmetry. unfold PRODUCT_LOCATIONS.
  rewrite !filter_cons_False, filter_nil; [done|..];
    intros Hle; unfold product_distance in Hle;
    match type of Hle with
    | haversine ?a ?b ?c ?d <= _ => pose proof (haversine_nonneg a b c d)
    end; lra.
Qed.

End CatalogExamples.

(** * Further properties of the code *)

(** ** More on the distance calculator *)

Section DistanceMore.
Local Open Scope R_scope.









End DistanceMore.

(** ** More on the nearby-product matcher *)

Section StableSortMore.
Local Open Scope R_scope.

Context {A : Type} (key : A -> R).





End StableSortMore.

Section NearbyMore.
Local Open Scope R_scope.






End NearbyMore.

(** ** More on the geolocation resolver *)

Section ResolverMore.

Variable py_float : string -> option Q.
Variable float_repr : Q -> string.

Lemma nearest_loop_in_catalog (latitude longitude : Q) :
  exists r,
    nearest_loop latitude longitude CHENNAI_areas None "Ambattur" = Ok r /\
    In r (map area_name CHENNAI_areas).
Proof.
  destruct (nearest_loop_spec latitude longitude CHENNAI_areas None "Ambattur")
    as (r & Hr & [[-> _] | (i & a & Hi & -> & _)]);
    eexists; (split; [exact Hr|]).
  - left. reflexivity.
  - apply in_map, list_elem_of_In, list_elem_of_lookup. eauto.
Qed.

(** X5.  Whatever it is given, text that parses, text that does not, or a
    value that is not text, [get_nearest_area] answers with the name of one
    of the seven areas of the catalog. *)
Theorem get_nearest_area_in_catalog (loc_str : pyval) :
  In (get_nearest_area py_float loc_str) (map area_name CHENNAI_areas).
Proof.
  unfold get_nearest_area, get_nearest_area_try.
  destruct (parse_loc py_float loc_str) as [[latitude longitude]|e];
    [|left; reflexivity].
  cbn -[nearest_loop CHENNAI_areas].
  destruct (nearest_loop_in_catalog latitude longitude) as (r & -> & Hr).
  exact Hr.
Qed.

(** X6.  On every path of [get_ip_info], provider up or down, ["loc"]
    present or not, the ["area"] of the record returned is the name of one of
    the seven areas; an ["area"] that the provider sent is overwritten. *)
Theorem get_ip_info_area_in_catalog
    (getDetails : option string -> result (gmap string pyval))
    (ip : option string) (g : rng) :
  exists (ip_data : gmap string pyval) (g' : rng) (name : string),
    get_ip_info py_float float_repr getDetails ip g = (Ok ip_data, g') /\
    ip_data !! "area" = Some (PStr name) /\
    In name (map area_name CHENNAI_areas).
Proof.
  unfold get_ip_info.
  destruct (get_ip_info_try py_float getDetails ip) as [ip_data|e] eqn:Htry.
  - exists ip_data, g. unfold get_ip_info_try in Htry.
    destruct (if truthy ip then getDetails ip else getDetails None)
      as [answer|e]; [|discriminate]. cbn in Htry.
    assert (Hamb : In "Ambattur" (map area_name CHENNAI_areas))
      by (left; reflexivity).
    destruct (answer !! "loc") as [loc|]; cbn in Htry.
    + destruct (py_in "," loc) as [[|]|e]; cbn in Htry;
        [| |discriminate Htry]; injection Htry as <-;
        eexists; (split; [reflexivity|]);
        (split; [apply lookup_insert_eq|]); [|exact Hamb].
      unfold get_nearest_area, get_nearest_area_try.
      destruct (parse_loc py_float loc) as [[latitude longitude]|e];
        [|exact Hamb].
      cbn -[nearest_loop CHENNAI_areas].
      now destruct (nearest_loop_in_catalog latitude longitude) as (r & -> & Hr).
    + injection Htry as <-. eexists. split; [reflexivity|].
      split; [apply lookup_insert_eq | exact Hamb].
  - destruct (generate_fake_ip_info_shape float_repr g)
      as (ip_data & g' & a & lat & lon & -> & Ha & Harea & _).
    exists ip_data, g', (area_name a). split; [reflexivity|].
    split; [exact Harea | now apply in_map].
Qed.

Lemma randint_bounds (a b : Z) (g : rng) :
  (a <= b -> a <= fst (randint a b g) <= b)%Z.
Proof.
  intros Hab. unfold randint, randbelow. cbn [next_raw fst].
  set (raw := tape g (cursor g)). set (n := Z.to_N (b - a + 1)).
  assert (Hn : Z.of_N n = (b - a + 1)%Z) by (unfold n; lia).
  assert (H : (raw mod n < n)%N) by (apply N.mod_lt; lia).
  apply N2Z.inj_lt in H.
  pose proof (N2Z.is_nonneg (raw mod n)). lia.
Qed.

(** X7.  The synthetic record has exactly the ten fields of a provider
    answer; its address lies in 103.0.0.0/8 with octets in 0..255, the host
    number in 100..999, the AS number in 10000..99999 and the postal code is
    6000 followed by a number in 10..99; city, region, country and time zone
    are those of Chennai. *)
Theorem generate_fake_ip_info_fields (g : rng) :
  exists (ip_data : gmap string pyval) (g' : rng) (ip1 ip2 ip3 host asn post : Z),
    generate_fake_ip_info float_repr true g = (Ok ip_data, g') /\
    dom ip_data = ({["ip"; "hostname"; "city"; "region"; "country"; "loc";
                     "org"; "postal"; "timezone"; "area"]} : gset string) /\
    ip_data !! "ip" = Some (PStr ("103." +:+ pretty ip1 +:+ "." +:+ pretty ip2
                                  +:+ "." +:+ pretty ip3)) /\
    (0 <= ip1 <= 255 /\ 0 <= ip2 <= 255 /\ 0 <= ip3 <= 255)%Z /\
    ip_data !! "hostname" = Some (PStr ("host-" +:+ pretty host +:+ ".airtel.net.in")) /\
    (100 <= host <= 999)%Z /\
    ip_data !! "org" = Some (PStr ("AS" +:+ pretty asn +:+ " Bharti Airtel Ltd.")) /\
    (10000 <= asn <= 99999)%Z /\
    ip_data !! "postal" = Some (PStr ("6000" +:+ pretty post)) /\
    (10 <= post <= 99)%Z /\
    ip_data !! "city" = Some (PStr "Chennai") /\
    ip_data !! "region" = Some (PStr "Tamil Nadu") /\
    ip_data !! "country" = Some (PStr "India") /\
    ip_data !! "timezone" = Some (PStr "Asia/Kolkata").
Proof.
  unfold generate_fake_ip_info.
  destruct (choice_spec CHENNAI_areas g) as (a & -> & Ha); [done|].
  set (g1 := snd (next_raw g)).
  destruct (uniform (-0.01) 0.01 g1) as [lat_offset g2].
  destruct (uniform (-0.01) 0.01 g2) as [long_offset g3].
  pose proof (randint_bounds 0 255 g3 ltac:(lia)) as H1.
  destruct (randint 0 255 g3) as [ip1 g4].
  pose proof (randint_bounds 0 255 g4 ltac:(lia)) as H2.
  destruct (randint 0 255 g4) as [ip2 g5].
  pose proof (randint_bounds 0 255 g5 ltac:(lia)) as H3.
  destruct (randint 0 255 g5) as [ip3 g6].
  pose proof (randint_bounds 100 999 g6 ltac:(lia)) as H4.
  destruct (randint 100 999 g6) as [host g7].
  pose proof (randint_bounds 10000 99999 g7 ltac:(lia)) as H5.
  destruct (randint 10000 99999 g7) as [asn g8].
  pose proof (randint_bounds 10 99 g8 ltac:(lia)) as H6.
  destruct (randint 10 99 g8) as [post g9].
  cbn [fst] in *.
  eexists _, g9, ip1, ip2, ip3, host, asn, post.
  split; [reflexivity|].
  split.
  { generalize (PStr ("103." +:+ pretty ip1 +:+ "." +:+ pretty ip2 +:+ "." +:+ pretty ip3)).
    generalize (PStr ("host-" +:+ pretty host +:+ ".airtel.net.in")).
    generalize (PStr (float_repr (area_latitude a + lat_offset)%Q +:+ "," +:+
                      float_repr (area_longitude a + long_offset)%Q)).
    generalize (PStr ("AS" +:+ pretty asn +:+ " Bharti Airtel Ltd.")).
    generalize (PStr ("6000" +:+ pretty post)).
    generalize (PStr (area_name a)).
    intros v1 v2 v3 v4 v5 v6. vm_compute. reflexivity. }
  repeat split; try reflexivity; lia.
Qed.

(** X8.  The branch for a non-default location yields a record without
    ["area"]: nine fields, a first octet in 1..255, and a coordinate inside
    the ranges of latitude and longitude. *)
Theorem generate_fake_ip_info_random_location (g : rng) :
  exists (ip_data : gmap string pyval) (g' : rng) (lat lon : Q),
    generate_fake_ip_info float_repr false g = (Ok ip_data, g') /\
    ip_data !! "area" = None /\
    dom ip_data = ({["ip"; "hostname"; "city"; "region"; "country"; "loc";
                     "org"; "postal"; "timezone"]} : gset string) /\
    ip_data !! "loc" = Some (PStr (float_repr lat +:+ "," +:+ float_repr lon)) /\
    (-90 <= lat /\ lat <= 90 /\ -180 <= lon /\ lon <= 180)%Q.
Proof.
  unfold generate_fake_ip_info.
  destruct (randint 1 255 g) as [ip0 g1].
  destruct (randint 0 255 g1) as [ip1 g2].
  destruct (randint 0 255 g2) as [ip2 g3].
  destruct (randint 0 255 g3) as [ip3 g4].
  destruct (randint 100 999 g4) as [host g5].
  pose proof (uniform_bounds (-90) 90 g5 ltac:(done)) as Hlat.
  destruct (uniform (-90) 90 g5) as [lat g6].
  pose proof (uniform_bounds (-180) 180 g6 ltac:(done)) as Hlon.
  destruct (uniform (-180) 180 g6) as [lon g7].
  destruct (randint 10000 99999 g7) as [asn g8].
  destruct (randint 10000 99999 g8) as [post g9].
  cbn [fst] in *.
  eexists _, g9, lat, lon.
  split; [reflexivity|]. split; [reflexivity|].
  split.
  { generalize (PStr (pretty ip0 +:+ "." +:+ pretty ip1 +:+ "." +:+ pretty ip2
                      +:+ "." +:+ pretty ip3)).
    generalize (PStr ("host-" +:+ pretty host +:+ ".example.com")).
    generalize (PStr (float_repr lat +:+ "," +:+ float_repr lon)).
    generalize (PStr ("AS" +:+ pretty asn +:+ " Example ISP")).
    generalize (PStr (pretty post)).
    intros v1 v2 v3 v4 v5. vm_compute. reflexivity. }
  split; [reflexivity|]. tauto.
Qed.

End ResolverMore.

(** ** More on the lead extractor *)

Section Strings.

Lemma append_cons (x : ascii) (a b : string) :
  String x a +:+ b = String x (a +:+ b).
Proof. reflexivity. Qed.

Lemma append_nil_l (a : string) : "" +:+ a = a.
Proof. reflexivity. Qed.

Lemma append_assoc (a b c : string) : (a +:+ b) +:+ c = a +:+ (b +:+ c).
Proof.
  induction a as [|x a IH]; [done|]. now rewrite !append_cons, IH.
Qed.

Lemma append_nil_r (a : string) : a +:+ "" = a.
Proof. induction a as [|x a IH]; [done|]. now rewrite append_cons, IH. Qed.

Lemma length_append (a b : string) :
  String.length (a +:+ b) = (String.length a + String.length b)%nat.
Proof.
  induction a as [|x a IH]; [done|].
  rewrite append_cons. cbn [String.length Nat.add]. now rewrite IH.
Qed.

Lemma take_append (a b : string) : take (String.length a) (a +:+ b) = a.
Proof.
  unfold take. induction a as [|x a IH].
  - rewrite append_nil_l. now destruct b.
  - rewrite append_cons. cbn [String.length substring]. now rewrite IH.
Qed.

Lemma consumed_append (a b : string) : consumed (a +:+ b) b = a.
Proof.
  unfold consumed. rewrite length_append.
  replace (String.length a + String.length b - String.length b)%nat
    with (String.length a) by lia.
  apply take_append.
Qed.

Lemma piece_of_refl (s : string) : piece_of s s.
Proof. exists "", "". now rewrite append_nil_l, append_nil_r. Qed.

Lemma piece_of_trans (a b c : string) :
  piece_of a b -> piece_of b c -> piece_of a c.
Proof.
  intros (p1 & q1 & ->) (p2 & q2 & ->).
  exists (p2 +:+ p1), (q1 +:+ q2). now rewrite !append_assoc.
Qed.

Lemma piece_of_suffix (v pre t : string) :
  piece_of v t -> piece_of v (pre +:+ t).
Proof.
  intros (p & q & ->). exists (pre +:+ p), q. now rewrite !append_assoc.
Qed.

Lemma piece_of_prefix (pre t : string) : piece_of pre (pre +:+ t).
Proof. now exists "", t. Qed.

Lemma prefix_append (v post : string) : String.prefix v (v +:+ post) = true.
Proof.
  induction v as [|x v IH]; [now destruct post|].
  rewrite append_cons. cbn [String.prefix].
  destruct (ascii_dec x x); [exact IH | done].
Qed.

Lemma piece_of_contains (v s : string) :
  piece_of v s -> str_contains v s = true.
Proof.
  intros (pre & post & ->). induction pre as [|x pre IH].
  - rewrite append_nil_l.
    destruct (v +:+ post) eqn:E; cbn [str_contains]; rewrite <- E;
      now rewrite prefix_append.
  - rewrite append_cons. cbn [str_contains]. rewrite IH. apply orb_true_r.
Qed.

End Strings.

Section Matcher.

Lemma reaches_refl (st : mstate) : reaches st st.
Proof. split; [now exists "" | now left]. Qed.

Lemma reaches_trans (st1 st2 st3 : mstate) :
  reaches st1 st2 -> reaches st2 st3 -> reaches st1 st3.
Proof.
  intros [[p1 H1] G1] [[p2 H2] G2]. split.
  - exists (p1 +:+ p2). now rewrite H1, H2, append_assoc.
  - destruct G2 as [G2|(g & G2 & Hg)].
    + rewrite G2. exact G1.
    + right. exists g. split; [exact G2|].
      rewrite H1. now apply piece_of_suffix.
Qed.

(** The matcher only moves forward: when a pattern succeeds, the rest of the
    pattern was run from a position that the start reaches. *)
Lemma rmatch_reaches (r : regex) :
  forall (A : Type) (st : mstate) (k : mstate -> option A) (m : A),
    rmatch r st k = Some m ->
    exists st', reaches st st' /\ k st' = Some m.
Proof.
  induction r as [|p|r1 IH1 r2 IH2|r1 IH1 r2 IH2|r IH|r IH|r IH| |];
    intros A st k m H; cbn [rmatch] in H.
  - exists st. split; [apply reaches_refl | exact H].
  - destruct (rest st) as [|c s'] eqn:Hrest; [discriminate|].
    destruct (p c); [|discriminate].
    eexists. split; [|exact H]. split; cbn.
    + exists (String c ""). now rewrite Hrest.
    + now left.
  - apply IH1 in H as (st1 & R1 & H). apply IH2 in H as (st2 & R2 & H).
    exists st2. split; [eapply reaches_trans; eauto | exact H].
  - destruct (rmatch r1 st k) as [m1|] eqn:E.
    + injection H as <-. now apply IH1 in E.
    + now apply IH2 in H.
  - revert H. generalize (String.length (rest st)). intros n. revert st.
    induction n as [|n IHn]; intros st H.
    + exists st. split; [apply reaches_refl | exact H].
    + match type of H with
      | match ?e with _ => _ end = _ => destruct e as [m1|] eqn:E
      end.
      * injection H as <-. apply IH in E as (st1 & R1 & E).
        destruct (String.length (rest st1) <? String.length (rest st))%nat;
          [|discriminate].
        apply IHn in E as (st2 & R2 & E).
        exists st2. split; [eapply reaches_trans; eauto | exact E].
      * exists st. split; [apply reaches_refl | exact H].
  - revert H. generalize (String.length (rest st)). intros n. revert st.
    induction n as [|n IHn]; intros st H.
    + destruct (k st) as [m1|] eqn:E; [|discriminate].
      injection H as <-. exists st. split; [apply reaches_refl | exact E].
    + destruct (k st) as [m1|] eqn:E.
      * injection H as <-. exists st. split; [apply reaches_refl | exact E].
      * apply IH in H as (st1 & R1 & H).
        destruct (String.length (rest st1) <? String.length (rest st))%nat;
          [|discriminate].
        apply IHn in H as (st2 & R2 & H).
        exists st2. split; [eapply reaches_trans; eauto | exact H].
  - apply IH in H as (st1 & [[pre Hpre] G1] & H).
    eexists. split; [|exact H]. split; cbn.
    + now exists pre.
    + right. eexists. split; [reflexivity|].
      rewrite Hpre, consumed_append. apply piece_of_prefix.
  - destruct (xorb _ _); [|discriminate].
    exists st. split; [apply reaches_refl | exact H].
  - exists st. split; [apply reaches_refl|].
    destruct (rest st) as [|c [|c' s']]; [exact H| |discriminate].
    destruct (Ascii.eqb c "010"); [exact H | discriminate].
Qed.

Lemma match_here_pieces (r : regex) (before : option ascii) (s : string)
    (m : match_obj) :
  rmatch r {| prev := before; rest := s; grp := None |}
    (fun st' => Some {| group0 := consumed s (rest st'); group1 := grp st' |})
  = Some m ->
  piece_of (group0 m) s /\ (forall g, group1 m = Some g -> piece_of g s).
Proof.
  intros H. apply rmatch_reaches in H as (st' & [[pre Hpre] G] & [= <-]).
  cbn [rest grp group0 group1] in *. split.
  - rewrite Hpre, consumed_append. apply piece_of_prefix.
  - intros g Hg. destruct G as [G|(g' & G & Hp)]; congruence.
Qed.

(** What [re.search] returns was read off the subject: [group(0)] is a
    piece of it, and so is [group(1)] when it is set. *)
Lemma search_from_pieces (r : regex) (s : string) :
  forall (before : option ascii) (m : match_obj),
    search_from r before s = Some m ->
    piece_of (group0 m) s /\
    (forall g, group1 m = Some g -> piece_of g s).
Proof.
  induction s as [|c s IH]; intros before m H; cbn [search_from] in H;
    match type of H with
    | match ?e with _ => _ end = _ => destruct e as [m1|] eqn:E
    end; try discriminate.
  - injection H as <-. eapply match_here_pieces, E.
  - injection H as <-. eapply match_here_pieces, E.
  - apply IH in H as [H0 H1]. split.
    + now apply (piece_of_suffix _ (String c "")).
    + intros g Hg. now apply (piece_of_suffix _ (String c "")), H1.
Qed.

End Matcher.

Section Extractor.

Lemma search_from_here (r : regex) (s : string) :
  forall (before : option ascii) (m : match_obj),
    search_from r before s = Some m ->
    exists (before' : option ascii) (pre s' : string),
      s = pre +:+ s' /\
      rmatch r {| prev := before'; rest := s'; grp := None |}
        (fun st' => Some {| group0 := consumed s' (rest st');
                            group1 := grp st' |}) = Some m.
Proof.
  induction s as [|c s IH]; intros before m H; cbn [search_from] in H;
    match type of H with
    | match ?e with _ => _ end = _ => destruct e as [m1|] eqn:E
    end; try discriminate.
  - injection H as <-. now exists before, "", "".
  - injection H as <-. now exists before, "", (String c s).
  - apply IH in H as (before' & pre & s' & -> & H).
    now exists before', (String c pre), s'.
Qed.

Lemma rmatch_Seq {A} (r1 r2 : regex) (st : mstate) (k : mstate -> option A) :
  rmatch (Seq r1 r2) st k = rmatch r1 st (fun st' => rmatch r2 st' k).
Proof. reflexivity. Qed.

Lemma rmatch_Cls {A} (p : ascii -> bool) (st : mstate) (k : mstate -> option A) :
  rmatch (Cls p) st k =
  match rest st with
  | String c s' =>
      if p c then k {| prev := Some c; rest := s'; grp := grp st |} else None
  | EmptyString => None
  end.
Proof. reflexivity. Qed.

Lemma email_here_has_at (before : option ascii) (s : string) (m : match_obj) :
  rmatch email_re {| prev := before; rest := s; grp := None |}
    (fun st' => Some {| group0 := consumed s (rest st'); group1 := grp st' |})
  = Some m ->
  exists a b, group0 m = a +:+ "@" +:+ b.
Proof.
  unfold email_re. intros H. rewrite rmatch_Seq in H.
  apply rmatch_reaches in H as (st1 & [[pre1 Hpre1] _] & H).
  cbn [rest] in Hpre1. unfold Chr in H. rewrite rmatch_Seq, rmatch_Cls in H.
  destruct (rest st1) as [|c s1] eqn:Hrest1; [discriminate|].
  destruct (Ascii.eqb "@" c) eqn:Hc; [|discriminate].
  apply Ascii.eqb_eq in Hc as <-.
  apply rmatch_reaches in H as (st2 & [[pre2 Hpre2] _] & [= <-]).
  cbn [rest group0] in *.
  exists pre1, pre2. rewrite Hpre1, Hpre2.
  change (String "@" (pre2 +:+ rest st2)) with ("@" +:+ pre2 +:+ rest st2).
  replace (pre1 +:+ "@" +:+ pre2 +:+ rest st2)
    with ((pre1 +:+ "@" +:+ pre2) +:+ rest st2)
    by (now rewrite !append_assoc).
  apply consumed_append.
Qed.

Lemma lstrip_suffix (s : string) : exists pre, s = pre +:+ lstrip s.
Proof.
  induction s as [|c s [pre IH]]; [now exists ""|]. cbn [lstrip].
  destruct (is_space c).
  - exists (String c pre). now rewrite append_cons, <- IH.
  - now exists "".
Qed.

Lemma rstrip_prefix (s : string) : exists post, s = rstrip s +:+ post.
Proof.
  induction s as [|c s [post IH]]; [now exists ""|]. cbn [rstrip].
  destruct (rstrip s) as [|c' t] eqn:E.
  - destruct (is_space c).
    + now exists (String c s).
    + exists post. rewrite append_cons, append_nil_l.
      rewrite append_nil_l in IH. now subst.
  - exists post. now rewrite append_cons, <- IH.
Qed.

Lemma strip_piece (s : string) : piece_of (strip s) s.
Proof.
  unfold strip. destruct (lstrip_suffix s) as [pre Hpre].
  destruct (rstrip_prefix (lstrip s)) as [post Hpost].
  exists pre, post. now rewrite <- Hpost.
Qed.

Lemma split_ws_aux_pieces (s : string) :
  forall (cur w : string),
    In w (split_ws_aux cur s) -> piece_of w (cur +:+ s).
Proof.
  induction s as [|c s IH]; intros cur w Hw; cbn [split_ws_aux] in Hw.
  - destruct cur as [|x cur]; [destruct Hw|].
    destruct Hw as [<-|[]]. apply piece_of_prefix.
  - destruct (is_space c).
    + apply in_app_or in Hw as [Hw|Hw].
      * destruct cur as [|x cur]; [destruct Hw|].
        destruct Hw as [<-|[]]. apply piece_of_prefix.
      * apply IH in Hw. rewrite append_nil_l in Hw.
        apply piece_of_suffix. now apply (piece_of_suffix _ (String c "")).
    + apply IH in Hw. now rewrite append_assoc in Hw.
Qed.

Lemma split_ws_pieces (s w : string) : In w (split_ws s) -> piece_of w s.
Proof. intros Hw. now apply split_ws_aux_pieces in Hw. Qed.

Lemma last_In {A} (l : list A) (x d : A) : In (List.last (x :: l) d) (x :: l).
Proof.
  revert x. induction l as [|y l IH]; intros x; [now left|].
  right. apply IH.
Qed.

(** What each key of the answer holds. *)
Ltac extract_cases :=
  unfold extract_lead_info_from_chat; cbv zeta;
  repeat match goal with
         | |- context [match ?e with _ => _ end] => destruct e eqn:?
         | |- context [if ?e then _ else _] => destruct e eqn:?
         end;
  cbn [fmap option_fmap option_map mbind option_bind];
  repeat match goal with
         | H : ?e = _ |- context [?e] => rewrite H
         end;
  cbn [head]; simplify_map_eq; try done.

Lemma extract_email (message : string) :
  extract_lead_info_from_chat message !! "email"
  = group0 <$> search email_re message.
Proof. extract_cases. Qed.

Lemma extract_phone (message : string) :
  extract_lead_info_from_chat message !! "phone"
  = group0 <$> search phone_re message.
Proof. extract_cases. Qed.

Lemma extract_company (message : string) :
  extract_lead_info_from_chat message !! "company"
  = (fun m => strip (default "" (group1 m))) <$> search company_re message.
Proof. extract_cases. Qed.

Lemma extract_first_name (message : string) :
  extract_lead_info_from_chat message !! "first_name"
  = m ← search name_re message; head (split_ws (default "" (group1 m))).
Proof. extract_cases. Qed.

Lemma extract_last_name (message : string) :
  extract_lead_info_from_chat message !! "last_name"
  = m ← search name_re message;
    match split_ws (default "" (group1 m)) with
    | first :: _ :: _ =>
        Some (List.last (split_ws (default "" (group1 m))) first)
    | _ => None
    end.
Proof.
  extract_cases;
    match goal with
    | H : (1 <? S (length ?l))%nat = _ |- _ => destruct l; cbn in H
    end; done.
Qed.

Lemma extract_other (message key : string) :
  ~ In key ["email"; "phone"; "first_name"; "last_name"; "company"] ->
  extract_lead_info_from_chat message !! key = None.
Proof.
  intros Hkey. cbn in Hkey.
  assert (key <> "email" /\ key <> "phone" /\ key <> "first_name" /\
          key <> "last_name" /\ key <> "company") as (?&?&?&?&?)
    by (repeat split; intros ->; tauto).
  extract_cases.
Qed.

(** X9.  Every value that [extract_lead_info_from_chat] returns, email,
    phone, first name, last name or company, stands in the message as it is
    returned: a run of consecutive characters of the message. *)
Theorem extract_lead_info_values_are_pieces (message key value : string) :
  extract_lead_info_from_chat message !! key = Some value ->
  piece_of value message.
Proof.
  intros Hlook.
  assert (Hgroup1 : forall r m,
            search r message = Some m ->
            piece_of (default "" (group1 m)) message).
  { intros r m Hm. apply search_from_pieces in Hm as [_ Hm].
    destruct (group1 m) as [g|]; [now apply Hm | now exists "", message]. }
  destruct (decide (key = "email")) as [->|].
  { rewrite extract_email in Hlook.
    destruct (search email_re message) as [m|] eqn:Hm; [|discriminate].
    injection Hlook as <-. now apply search_from_pieces in Hm as [Hm _]. }
  destruct (decide (key = "phone")) as [->|].
  { rewrite extract_phone in Hlook.
    destruct (search phone_re message) as [m|] eqn:Hm; [|discriminate].
    injection Hlook as <-. now apply search_from_pieces in Hm as [Hm _]. }
  destruct (decide (key = "company")) as [->|].
  { rewrite extract_company in Hlook.
    destruct (search company_re message) as [m|] eqn:Hm; [|discriminate].
    injection Hlook as <-.
    eapply piece_of_trans; [apply strip_piece | eapply Hgroup1, Hm]. }
  destruct (decide (key = "first_name")) as [->|].
  { rewrite extract_first_name in Hlook.
    destruct (search name_re message) as [m|] eqn:Hm; [|discriminate].
    cbn in Hlook. eapply piece_of_trans; [|eapply Hgroup1, Hm].
    apply split_ws_pieces.
    destruct (split_ws (default "" (group1 m))); [discriminate|].
    injection Hlook as <-. now left. }
  destruct (decide (key = "last_name")) as [->|].
  { rewrite extract_last_name in Hlook.
    destruct (search name_re message) as [m|] eqn:Hm; [|discriminate].
    cbn in Hlook. eapply piece_of_trans; [|eapply Hgroup1, Hm].
    apply split_ws_pieces.
    destruct (split_ws (default "" (group1 m))) as [|first [|second l]];
      try discriminate.
    injection Hlook as <-. apply (last_In (second :: l) first first). }
  rewrite extract_other in Hlook; [discriminate|].
  cbn. intros H. repeat (destruct H as [<-|H]; [done|]). exact H.
Qed.

(** X10.  An email that [extract_lead_info_from_chat] returns has an at
    sign inside; a message with no at sign yields no email, which is when the
    chat-to-lead endpoint answers that no lead was extracted. *)
Theorem extract_lead_info_email_has_at (message : string) :
  (forall value, extract_lead_info_from_chat message !! "email" = Some value ->
     exists a b, value = a +:+ "@" +:+ b) /\
  (str_contains "@" message = false ->
   extract_lead_info_from_chat message !! "email" = None).
Proof.
  assert (Hat : forall value,
            extract_lead_info_from_chat message !! "email" = Some value ->
            (exists a b, value = a +:+ "@" +:+ b) /\ piece_of value message).
  { intros value Hlook. rewrite extract_email in Hlook.
    destruct (search email_re message) as [m|] eqn:Hm; [|discriminate].
    injection Hlook as <-. split.
    - apply search_from_here in Hm as (before & pre & s' & _ & Hm).
      now apply email_here_has_at in Hm.
    - now apply search_from_pieces in Hm as [Hm _]. }
  split; [intros value Hlook; now apply Hat|].
  intros Hno.
  destruct (extract_lead_info_from_chat message !! "email") as [value|] eqn:Hlook;
    [|reflexivity].
  destruct (Hat value eq_refl) as [(a & b & ->) Hp].
  assert (Hin : piece_of "@" message).
  { eapply piece_of_trans; [|exact Hp]. now exists a, b. }
  apply piece_of_contains in Hin. congruence.
Qed.

(** X11.  The answer of [extract_lead_info_from_chat] has no key besides
    email, phone, first_name, last_name and company, and it has a last name
    only together with a first name. *)
Theorem extract_lead_info_keys (message : string) :
  (forall key, is_Some (extract_lead_info_from_chat message !! key) ->
     In key ["email"; "phone"; "first_name"; "last_name"; "company"]) /\
  (is_Some (extract_lead_info_from_chat message !! "last_name") ->
   is_Some (extract_lead_info_from_chat message !! "first_name")).
Proof.
  split.
  - intros key [value Hlook].
    destruct (in_dec string_dec key
                ["email"; "phone"; "first_name"; "last_name"; "company"])
      as [Hin|Hout]; [exact Hin|].
    rewrite extract_other in Hlook by exact Hout. discriminate.
  - rewrite extract_last_name, extract_first_name.
    destruct (search name_re message) as [m|]; cbn; [|intros [? ?]; discriminate].
    destruct (split_ws (default "" (group1 m))); cbn; [intros [? ?]; discriminate|].
    eauto.
Qed.

End Extractor.

Lemma extract_lead_info_values_are_pieces_witness :
  extract_lead_info_from_chat "my name is John Doe, email john@doe.com"
    !! "last_name" = Some "Doe" /\
  piece_of "Doe" "my name is John Doe, email john@doe.com".
Proof.
  split; [vm_compute; reflexivity|].
  apply (extract_lead_info_values_are_pieces
           "my name is John Doe, email john@doe.com" "last_name" "Doe").
  vm_compute. reflexivity.
Defined.


(** ** More on the size bucket *)

Section SizeBucket.

Lemma lower_char_idem (c : ascii) : lower_char (lower_char c) = lower_char c.
Proof.
  unfold lower_char. destruct (is_upper c) eqn:Hup; [|now rewrite Hup].
  assert (Hlow : is_upper (ascii_of_nat (nat_of_ascii c + 32)) = false).
  { unfold is_upper in *. cbv zeta in *.
    apply andb_true_iff in Hup as [H1 H2].
    apply Nat.leb_le in H1, H2.
    rewrite nat_ascii_embedding by lia.
    apply andb_false_iff. right. apply Nat.leb_gt. lia. }
  now rewrite Hlow.
Qed.

Lemma lower_idem (s : string) : lower (lower s) = lower s.
Proof.
  induction s as [|c s IH]; [done|]. cbn [lower].
  now rewrite lower_char_idem, IH.
Qed.

Lemma lower_empty (s : string) : lower s = "" <-> s = "".
Proof. destruct s; cbn [lower]; split; congruence. Qed.

Lemma estimate_by_lower (s1 s2 : string) :
  lower s1 = lower s2 ->
  estimate_company_size_to_number (Some s1) =
  estimate_company_size_to_number (Some s2).
Proof.
  intros Heq. unfold estimate_company_size_to_number.
  destruct s1 as [|c1 s1], s2 as [|c2 s2]; try done.
  now rewrite Heq.
Qed.

(** X12.  The size estimate is one of 25, 100, 500 and 1000 or nothing, and
    it does not look at the case of letters: two descriptions with the same
    lowercase form get the same estimate, and so does a description and its
    lowercase form. *)
Theorem estimate_company_size_case_insensitive :
  (forall size_description n,
     estimate_company_size_to_number size_description = Some n ->
     In n [25; 100; 500; 1000]%Z) /\
  (forall s1 s2, lower s1 = lower s2 ->
     estimate_company_size_to_number (Some s1) =
     estimate_company_size_to_number (Some s2)) /\
  (forall s, estimate_company_size_to_number (Some (lower s)) =
             estimate_company_size_to_number (Some s)).
Proof.
  split; [|split].
  - intros [[|c s]|] n; try discriminate.
    unfold estimate_company_size_to_number. rewrite first_size_mapping.
    set (l := lower (String c s)).
    repeat (destruct (str_contains _ l); [intros [= <-]; cbn; tauto|]).
    discriminate.
  - exact estimate_by_lower.
  - intros s. apply estimate_by_lower, lower_idem.
Qed.

End SizeBucket.


(** ** HubSpot contact properties *)

Section ContactProperties.

Lemma set_if_lookup_ne (key key' : string) (value : option string)
    (properties : gmap string string) :
  key <> key' -> set_if key value properties !! key' = properties !! key'.
Proof.
  intros Hne. unfold set_if. destruct value as [[|c v]|]; try done.
  now apply lookup_insert_ne.
Qed.

Lemma set_if_lookup_eq (key : string) (value : option string)
    (properties : gmap string string) :
  set_if key value properties !! key =
  match value with
  | Some (String c v) => Some (String c v)
  | _ => properties !! key
  end.
Proof.
  unfold set_if. destruct value as [[|c v]|]; try done.
  apply lookup_insert_eq.
Qed.

(** A property of the entries that every [if value:] keeps. *)
Lemma set_if_invariant (P : string -> string -> Prop) (key : string)
    (value : option string) (properties : gmap string string) :
  (forall v, v <> "" -> P key v) ->
  (forall k v, properties !! k = Some v -> P k v) ->
  forall k v, set_if key value properties !! k = Some v -> P k v.
Proof.
  intros Hkey Hold k v. unfold set_if.
  destruct value as [[|c s]|]; try apply Hold.
  destruct (decide (key = k)) as [<-|Hne].
  - rewrite lookup_insert_eq. intros [= <-]. now apply Hkey.
  - rewrite lookup_insert_ne by done. apply Hold.
Qed.

Ltac contact_lookup :=
  unfold format_hubspot_contact_properties; cbv zeta;
  rewrite ?set_if_lookup_ne by done;
  rewrite set_if_lookup_eq;
  rewrite ?set_if_lookup_ne by done;
  rewrite ?lookup_empty;
  reflexivity.

(** X13.  [format_hubspot_contact_properties] copies each field that is
    set and not empty under HubSpot's name for it, [lifecycle_stage] going
    out as [lifecyclestage], and leaves the others out: no property is ever
    sent empty, and no key besides the nine is ever sent. *)
Theorem format_hubspot_contact_properties_spec (contact : HubSpotContact) :
  let properties := format_hubspot_contact_properties contact in
  let sent := fun (value : option string) =>
                match value with
                | Some (String c v) => Some (String c v)
                | _ => None
                end in
  properties !! "email" = sent (Some (contact_email contact)) /\
  properties !! "firstname" = sent (contact_firstname contact) /\
  properties !! "lastname" = sent (contact_lastname contact) /\
  properties !! "phone" = sent (contact_phone contact) /\
  properties !! "company" = sent (contact_company contact) /\
  properties !! "website" = sent (contact_website contact) /\
  properties !! "jobtitle" = sent (contact_jobtitle contact) /\
  properties !! "lifecyclestage" = sent (contact_lifecycle_stage contact) /\
  properties !! "lead_source" = sent (contact_lead_source contact) /\
  (forall key, ~ In key ["email"; "firstname"; "lastname"; "phone"; "company";
                         "website"; "jobtitle"; "lifecyclestage"; "lead_source"] ->
     properties !! key = None) /\
  (forall key value, properties !! key = Some value -> value <> "").
Proof.
  cbv zeta.
  assert (Hinv : forall key value,
            format_hubspot_contact_properties contact !! key = Some value ->
            value <> "" /\
            In key ["email"; "firstname"; "lastname"; "phone"; "company";
                    "website"; "jobtitle"; "lifecyclestage"; "lead_source"]).
  { unfold format_hubspot_contact_properties. cbv zeta.
    repeat (apply set_if_invariant; [intros v Hv; split; [exact Hv|cbn; tauto]|]).
    intros k v. now rewrite lookup_empty. }
  repeat (split; [contact_lookup|]).
  split.
  - intros key Hout.
    destruct (format_hubspot_contact_properties contact !! key) as [value|] eqn:E;
      [|reflexivity].
    apply Hinv in E as [_ E]. contradiction.
  - intros key value Hlook. now apply Hinv in Hlook.
Qed.

End ContactProperties.

(** ** Dates for HubSpot *)

Section Dates.

Lemma append_inj_length (a b c d : string) :
  String.length a = String.length c ->
  a +:+ b = c +:+ d -> a = c /\ b = d.
Proof.
  revert c. induction a as [|x a IH]; intros [|y c] Hlen; try discriminate.
  - now rewrite !append_nil_l.
  - rewrite !append_cons. intros [= -> H]. injection Hlen as Hlen.
    now destruct (IH c Hlen H) as [-> ->].
Qed.

(** A check of the numbers of a range, one by one. *)
Lemma each_of_range (f : N -> bool) (lo len : N) :
  forallb f (map N.of_nat (seq (N.to_nat lo) (N.to_nat len))) = true ->
  forall n, (lo <= n < lo + len)%N -> f n = true.
Proof.
  intros Hf n Hn. rewrite forallb_forall in Hf. apply Hf.
  apply in_map_iff. exists (N.to_nat n). split; [apply N2Nat.id|].
  apply in_seq. lia.
Qed.

Lemma pad2_length (n : N) : (n < 100)%N -> String.length (pad2 n) = 2%nat.
Proof.
  intros Hn. apply Nat.eqb_eq.
  apply (each_of_range (fun n => String.length (pad2 n) =? 2)%nat 0 100);
    [now vm_compute | lia].
Qed.

Lemma pad2_inj (n m : N) :
  (n < 100)%N -> (m < 100)%N -> pad2 n = pad2 m -> n = m.
Proof.
  intros Hn Hm Heq.
  pose (f := fun n => forallb (fun m => implb (String.eqb (pad2 n) (pad2 m))
                                          (N.eqb n m))
                        (map N.of_nat (seq 0 100))).
  assert (Hf : f n = true)
    by (apply (each_of_range f 0 100); [now vm_compute | lia]).
  unfold f in Hf.
  pose proof (each_of_range _ 0 100 Hf m ltac:(lia)) as H. cbv beta in H.
  apply String.eqb_eq in Heq. rewrite Heq in H. now apply N.eqb_eq in H.
Qed.

Lemma strftime_date (d : datetime) :
  strftime d "%m/%d/%Y" =
  pad2 (dt_month d) +:+ "/" +:+ pad2 (dt_day d) +:+ "/" +:+ pretty (dt_year d).
Proof. cbn. now rewrite append_nil_r. Qed.

Lemma year_length (y : N) :
  (1000 <= y <= 9999)%N -> String.length (pretty y) = 4%nat.
Proof.
  intros Hy. apply Nat.eqb_eq.
  apply (each_of_range (fun y => String.length (pretty y) =? 4)%nat 1000 9000);
    [now vm_compute | lia].
Qed.

Lemma datetime_ok_fields (d : datetime) :
  datetime_ok d = true ->
  (1000 <= dt_year d <= 9999)%N /\ (dt_month d < 100)%N /\ (dt_day d < 100)%N.
Proof.
  unfold datetime_ok. rewrite !andb_true_iff, !N.leb_le, !N.ltb_lt. lia.
Qed.

(** Two dates print alike exactly when year, month and day agree. *)
Lemma strftime_date_inj (d1 d2 : datetime) :
  datetime_ok d1 = true -> datetime_ok d2 = true ->
  strftime d1 "%m/%d/%Y" = strftime d2 "%m/%d/%Y" ->
  dt_year d1 = dt_year d2 /\ dt_month d1 = dt_month d2 /\ dt_day d1 = dt_day d2.
Proof.
  intros (_ & Hm1 & Hd1)%datetime_ok_fields (_ & Hm2 & Hd2)%datetime_ok_fields.
  rewrite !strftime_date. intros H.
  apply append_inj_length in H as [Hm H]; [|now rewrite !pad2_length].
  rewrite !append_cons, !append_nil_l in H. injection H as H.
  apply append_inj_length in H as [Hd H]; [|now rewrite !pad2_length].
  injection H as H.
  apply pad2_inj in Hm, Hd; try done.
  now apply (inj pretty) in H.
Qed.

Lemma strftime_date_same_day (d1 d2 : datetime) :
  dt_year d1 = dt_year d2 -> dt_month d1 = dt_month d2 ->
  dt_day d1 = dt_day d2 ->
  strftime d1 "%m/%d/%Y" = strftime d2 "%m/%d/%Y".
Proof. intros Hy Hm Hd. rewrite !strftime_date. now rewrite Hy, Hm, Hd. Qed.

Lemma strftime_date_length (d : datetime) :
  datetime_ok d = true -> String.length (strftime d "%m/%d/%Y") = 10%nat.
Proof.
  intros (Hy & Hm & Hd)%datetime_ok_fields.
  rewrite strftime_date, !length_append, !pad2_length, year_length by done.
  reflexivity.
Qed.

(** X14.  [format_date_for_hubspot] writes a date as ten characters,
    [mm/dd/yyyy], and two dates get the same text exactly when they are the
    same day: the text tells the day, and the empty text stands for a
    missing date only. *)
Theorem format_date_for_hubspot_inj (d1 d2 : datetime) :
  datetime_ok d1 = true -> datetime_ok d2 = true ->
  String.length (format_date_for_hubspot (Some d1)) = 10%nat /\
  format_date_for_hubspot (Some d1) <> format_date_for_hubspot None /\
  (format_date_for_hubspot (Some d1) = format_date_for_hubspot (Some d2) <->
   dt_year d1 = dt_year d2 /\ dt_month d1 = dt_month d2 /\
   dt_day d1 = dt_day d2).
Proof.
  intros Hok1 Hok2. unfold format_date_for_hubspot, HUBSPOT_DATE_FORMAT.
  pose proof (strftime_date_length d1 Hok1) as Hlen.
  split; [exact Hlen|]. split.
  - intros H. now rewrite H in Hlen.
  - split; [now apply strftime_date_inj|].
    intros (Hy & Hm & Hd). now apply strftime_date_same_day.
Qed.

(** X15.  [format_datetime_for_hubspot] prints the date followed by
    [8:00 AM] whatever the time of day: the hour and the minute of its
    argument never reach the text, and two moments get the same text exactly
    when they fall on the same day. *)
Theorem format_datetime_for_hubspot_drops_time :
  (forall d, format_datetime_for_hubspot (Some d) =
             format_date_for_hubspot (Some d) +:+ " 8:00 AM") /\
  (forall d hour minute,
     format_datetime_for_hubspot
       (Some {| dt_year := dt_year d; dt_month := dt_month d;
                dt_day := dt_day d; dt_hour := hour; dt_minute := minute |})
     = format_datetime_for_hubspot (Some d)) /\
  (forall d1 d2, datetime_ok d1 = true -> datetime_ok d2 = true ->
     (format_datetime_for_hubspot (Some d1) =
      format_datetime_for_hubspot (Some d2) <->
      dt_year d1 = dt_year d2 /\ dt_month d1 = dt_month d2 /\
      dt_day d1 = dt_day d2)).
Proof.
  split; [reflexivity|]. split.
  - intros d hour minute. unfold format_datetime_for_hubspot. cbv zeta.
    f_equal.
  - intros d1 d2 Hok1 Hok2. unfold format_datetime_for_hubspot. cbv zeta.
    split.
    + intros H. apply append_inj_length in H as [H _];
        [|now rewrite !strftime_date_length].
      now apply strftime_date_inj.
    + intros (Hy & Hm & Hd). f_equal. now apply strftime_date_same_day.
Qed.

End Dates.

Lemma format_date_for_hubspot_inj_witness :
  String.length (format_date_for_hubspot
    (Some {| dt_year := 2024; dt_month := 3; dt_day := 9;
             dt_hour := 17; dt_minute := 5 |})) = 10%nat /\
  format_date_for_hubspot
    (Some {| dt_year := 2024; dt_month := 3; dt_day := 9;
             dt_hour := 17; dt_minute := 5 |}) = "03/09/2024".
Proof.
  split; [|reflexivity].
  apply (format_date_for_hubspot_inj
           {| dt_year := 2024; dt_month := 3; dt_day := 9;
              dt_hour := 17; dt_minute := 5 |}
           {| dt_year := 2024; dt_month := 3; dt_day := 9;
              dt_hour := 8; dt_minute := 0 |});
    reflexivity.
Defined.
